(** * ImageFeed: feeds and image uploads (app/main.py)

    A shallow embedding of the four request handlers of the ImageFeed
    service ([create_feed], [get_feed], [upload_image], [list_images])
    together with the parts of their environment that they observe:

    - the two tables [feeds] and [images], as lists of rows in insertion
      order, with what [db.commit()] refuses: a primary key that is
      taken, a text value with the character NUL;
    - the local filesystem touched by [os.makedirs] and [open(.., "wb")],
      as a finite map from resolved paths to directory or file nodes,
      with the length limits of path strings;
    - the values drawn from outside the program ([uuid.uuid4],
      [datetime.utcnow]), supplied per request by an [Env] record.

    Exceptions are values; every handler is a function from the world
    before the request to a result and the world after it. *)

From Stdlib Require Import ZArith NArith Ascii Lia.
From Stdlib Require Import Init.Byte.
From stdpp Require Import base option list strings gmap fin_maps.

(* ===================================================================== *)
(** ** Identifiers: [uuid.UUID] *)
(* ===================================================================== *)

(** A [uuid.UUID] is its 128-bit integer ([UUID.int]).  [str(u)] is
    ['%032x' % int], cut into groups of 8-4-4-4-12 digits.  The type does
    not carry the bound; [valid] states it where a statement needs it. *)
Module Uuid.

Definition t := N.

Definition valid (u : t) : Prop := (u < 2 ^ 128)%N.

Definition hex_digit (d : N) : ascii :=
  match d with
  | 0 => "0" | 1 => "1" | 2 => "2" | 3 => "3" | 4 => "4"
  | 5 => "5" | 6 => "6" | 7 => "7" | 8 => "8" | 9 => "9"
  | 10 => "a" | 11 => "b" | 12 => "c" | 13 => "d" | 14 => "e"
  | _ => "f"
  end%N%char.

(** The [k] low hexadecimal digits of [n], most significant first. *)
Fixpoint hex_digits (k : nat) (n : N) : string :=
  match k with
  | O => ""
  | S k' => hex_digits k' (n / 16)%N +:+ String (hex_digit (n mod 16)%N) ""
  end.

Definition hex (u : t) : string := hex_digits 32 u.

Definition hyphenate (h : string) : string :=
  String.substring 0 8 h +:+ "-" +:+ String.substring 8 4 h +:+ "-" +:+
  String.substring 12 4 h +:+ "-" +:+ String.substring 16 4 h +:+ "-" +:+
  String.substring 20 12 h.

Definition str (u : t) : string := hyphenate (hex u).

(** The inverses, used to show that [str] loses nothing. *)
Definition hex_val (c : ascii) : N :=
  match c with
  | "0" => 0 | "1" => 1 | "2" => 2 | "3" => 3 | "4" => 4
  | "5" => 5 | "6" => 6 | "7" => 7 | "8" => 8 | "9" => 9
  | "a" => 10 | "b" => 11 | "c" => 12 | "d" => 13 | "e" => 14
  | _ => 15
  end%char%N.

Definition unhyphenate (s : string) : string :=
  String.substring 0 8 s +:+ String.substring 9 4 s +:+
  String.substring 14 4 s +:+ String.substring 19 4 s +:+
  String.substring 24 12 s.

End Uuid.

Abbreviation UUID := Uuid.t.

(* ===================================================================== *)
(** ** The filesystem seen by [os.makedirs] and [open] *)
(* ===================================================================== *)

(** A resolved location is the list of its components from the root
    directory.  The model is a POSIX name space without symbolic links
    and permissions: a location is a directory, a regular file with its
    bytes, or absent.  The root is always a directory. *)
Abbreviation location := (list string).

Inductive node :=
| Dir
| File (data : list byte).

Record FS := {
  nodes : gmap location node;
  cwd : location;                   (* the working directory of the process *)
}.

Definition fs_node (m : gmap location node) (p : location) : option node :=
  match p with
  | [] => Some Dir
  | _ => m !! p
  end.

Definition parent (p : location) : location := removelast p.

(** [s.split("/")]: the components of a path string. *)
Fixpoint split_slash (s : string) : list string :=
  match s with
  | EmptyString => [EmptyString]
  | String c s' =>
      if Ascii.eqb c "/" then EmptyString :: split_slash s'
      else match split_slash s' with
           | [] => [String c EmptyString]       (* never: a split is not empty *)
           | h :: t => String c h :: t
           end
  end.

Fixpoint has_nul (s : string) : bool :=
  match s with
  | EmptyString => false
  | String c s' => Ascii.eqb c Ascii.zero || has_nul s'
  end.

(** The limits of Linux filesystems: a component has at most [NAME_MAX]
    bytes and a path string fewer than [PATH_MAX] (ENAMETOOLONG
    otherwise). *)
Definition NAME_MAX : nat := 255.
Definition PATH_MAX : nat := 4096.

Definition too_long (s : string) : bool :=
  Nat.leb PATH_MAX (String.length s) ||
  existsb (λ c, Nat.ltb NAME_MAX (String.length c)) (split_slash s).

(** A path string the system calls refuse whatever is on the disk:
    ValueError for an embedded NUL in Python, ENAMETOOLONG in the
    kernel. *)
Definition refused (s : string) : bool := has_nul s || too_long s.

Definition is_absolute (s : string) : bool :=
  match s with
  | String c _ => Ascii.eqb c "/"
  | EmptyString => false
  end.

(** Where name resolution of [s] starts. *)
Definition start_dir (fs : FS) (s : string) : location :=
  if is_absolute s then [] else cwd fs.

Inductive component :=
| CHere                          (* "" (doubled or trailing slash) and "." *)
| CUp                            (* ".." *)
| CName (name : string).

Definition classify (c : string) : component :=
  if String.eqb c "" then CHere
  else if String.eqb c "." then CHere
  else if String.eqb c ".." then CUp
  else CName c.

(** Follow directory components from [cur]; every named component must be
    an existing directory. *)
Fixpoint walk (m : gmap location node) (cur : location) (comps : list string)
  : option location :=
  match comps with
  | [] => Some cur
  | c :: cs =>
      match classify c with
      | CHere => walk m cur cs
      | CUp => walk m (parent cur) cs
      | CName n =>
          match fs_node m (cur ++ [n]) with
          | Some Dir => walk m (cur ++ [n]) cs
          | _ => None
          end
      end
  end.

(** [os.makedirs(.., exist_ok=True)] along [comps]: existing directories
    are entered, missing ones are created, a regular file in the way is an
    error. *)
Fixpoint mkdir_p (m : gmap location node) (cur : location) (comps : list string)
  : option (gmap location node) :=
  match comps with
  | [] => Some m
  | c :: cs =>
      match classify c with
      | CHere => mkdir_p m cur cs
      | CUp => mkdir_p m (parent cur) cs
      | CName n =>
          match fs_node m (cur ++ [n]) with
          | Some Dir => mkdir_p m (cur ++ [n]) cs
          | None => mkdir_p (<[cur ++ [n] := Dir]> m) (cur ++ [n]) cs
          | Some (File _) => None
          end
      end
  end.

Definition os_makedirs (fs : FS) (name : string) : option FS :=
  if refused name then None
  else
    match fs_node (nodes fs) (start_dir fs name) with
    | Some Dir =>
        m ← mkdir_p (nodes fs) (start_dir fs name) (split_slash name);
        Some {| nodes := m; cwd := cwd fs |}
    | _ => None
    end.

(** The location a path string names as a file: its directory part must
    resolve, its last component must be a proper name, and the location
    must not be a directory. *)
Definition resolve_file (fs : FS) (name : string) : option location :=
  if refused name then None
  else
    match fs_node (nodes fs) (start_dir fs name) with
    | Some Dir =>
        let comps := split_slash name in
        d ← walk (nodes fs) (start_dir fs name) (removelast comps);
        match classify (List.last comps "") with
        | CName n =>
            match fs_node (nodes fs) (d ++ [n]) with
            | Some Dir => None
            | _ => Some (d ++ [n])
            end
        | _ => None
        end
    | _ => None
    end.

(** [with open(name, "wb") as buffer: buffer.write(data)]: create or
    truncate, then write. *)
Definition open_wb_write (fs : FS) (name : string) (data : list byte)
  : option FS :=
  p ← resolve_file fs name;
  Some {| nodes := <[p := File data]> (nodes fs); cwd := cwd fs |}.

(** [open(name, "rb").read()] *)
Definition read_file (fs : FS) (name : string) : option (list byte) :=
  p ← resolve_file fs name;
  match nodes fs !! p with
  | Some (File data) => Some data
  | _ => None
  end.

(* ===================================================================== *)
(** ** The relational store *)
(* ===================================================================== *)

(** Rows of table [feeds]. *)
Module Feed.
Record t := mk {
  id : UUID;                     (* primary key, default uuid.uuid4 *)
  name : string;                 (* nullable=False *)
  description : option string;
  created_at : Z;                (* default datetime.utcnow *)
}.
End Feed.

(** Rows of table [images]. *)
Module Image.
Record t := mk {
  id : UUID;                     (* primary key, default uuid.uuid4 *)
  feed_id : UUID;                (* no foreign-key constraint *)
  filename : string;
  path : string;
  created_at : Z;
}.
End Image.

(** The world a request runs in: both tables, in insertion order, and the
    disk. *)
Record World := {
  feeds : list Feed.t;
  images : list Image.t;
  disk : FS;
}.

(** What a request draws from outside the program: the clock reading when
    the request arrives, the time that passes until the row defaults are
    evaluated at insertion (the clock does not run backwards while a
    request is served), and the identifier [uuid.uuid4()] returns. *)
Record Env := {
  request_time : Z;
  elapsed : N;
  random_uuid : UUID;
}.

Definition uuid4 (env : Env) : UUID := random_uuid env.
Definition utcnow (env : Env) : Z := (request_time env + Z.of_N (elapsed env))%Z.

(* ===================================================================== *)
(** ** Exceptions and the handler monad *)
(* ===================================================================== *)

Inductive Exn :=
| HTTPException (status_code : Z) (detail : string)
| RequestValidationError         (* the body does not fit the schema *)
| IntegrityError                 (* duplicate primary key at commit *)
| DataError                      (* a text value the store refuses *)
| InvalidRequestError            (* db.refresh finds no row *)
| IOFailure.                     (* OSError / ValueError of makedirs, open *)

(** The status FastAPI answers with. *)
Definition http_status (e : Exn) : Z :=
  match e with
  | HTTPException c _ => c
  | RequestValidationError => 422
  | _ => 500
  end.

(** A handler maps the world before the request to its outcome and the
    world after it; an exception keeps the effects made before it.  The
    session that [get_db] opens for a request and closes after it is the
    table part of the world threaded through. *)
Definition M (A : Type) : Type := World → (Exn + A) * World.

Definition ret {A} (a : A) : M A := λ w, (inr a, w).
Definition raise {A} (e : Exn) : M A := λ w, (inl e, w).
Definition bind {A B} (m : M A) (k : A → M B) : M B :=
  λ w, match m w with
       | (inl e, w') => (inl e, w')
       | (inr a, w') => k a w'
       end.

#[global] Instance M_ret : MRet M := @ret.
#[global] Instance M_bind : MBind M := λ A B k m, bind m k.

(** *** Session operations *)

Definition set_feeds (w : World) (l : list Feed.t) : World :=
  {| feeds := l; images := images w; disk := disk w |}.
Definition set_images (w : World) (l : list Image.t) : World :=
  {| feeds := feeds w; images := l; disk := disk w |}.
Definition set_disk (w : World) (fs : FS) : World :=
  {| feeds := feeds w; images := images w; disk := fs |}.

(** [SELECT .. FROM feeds WHERE id = feed_id LIMIT 1] *)
Definition select_feed (feed_id : UUID) (tbl : list Feed.t) : option Feed.t :=
  List.find (λ f, N.eqb (Feed.id f) feed_id) tbl.

(** [SELECT .. FROM images WHERE feed_id = feed_id].  The query has no
    ORDER BY, so SQL promises no order of the rows; the model returns them
    in the order of the table, as a sequential scan of a table that is
    only ever inserted into does. *)
Definition select_images (feed_id : UUID) (tbl : list Image.t) : list Image.t :=
  List.filter (λ i, N.eqb (Image.feed_id i) feed_id) tbl.

(** [db.query(Feed).filter(Feed.id == feed_id).first()] *)
Definition query_feed_first (feed_id : UUID) : M (option Feed.t) :=
  λ w, (inr (select_feed feed_id (feeds w)), w).

(** [db.query(Image).filter(Image.feed_id == feed_id).all()] *)
Definition query_images_all (feed_id : UUID) : M (list Image.t) :=
  λ w, (inr (select_images feed_id (images w)), w).

(** PostgreSQL text cannot hold the character NUL: a parameter with one
    makes the statement fail before it reaches the table. *)
Definition text_has_nul (o : option string) : bool :=
  match o with
  | Some s => has_nul s
  | None => false
  end.

(** [db.add(row); db.commit()]: the INSERT fails on a text value with a
    NUL and on a primary key that is already in the table. *)
Definition add_commit_feed (row : Feed.t) : M unit :=
  λ w, if has_nul (Feed.name row) || text_has_nul (Feed.description row)
       then (inl DataError, w)
       else if decide (Feed.id row ∈ Feed.id <$> feeds w)
       then (inl IntegrityError, w)
       else (inr (), set_feeds w (feeds w ++ [row])).

Definition add_commit_image (row : Image.t) : M unit :=
  λ w, if has_nul (Image.filename row) || has_nul (Image.path row)
       then (inl DataError, w)
       else if decide (Image.id row ∈ Image.id <$> images w)
       then (inl IntegrityError, w)
       else (inr (), set_images w (images w ++ [row])).

(** [db.refresh(db_feed)]: reload the row by primary key. *)
Definition refresh_feed (row : Feed.t) : M Feed.t :=
  found ← query_feed_first (Feed.id row);
  match found with
  | Some r => ret r
  | None => raise InvalidRequestError
  end.

(** *** Filesystem operations *)

Definition makedirs (name : string) : M unit :=
  λ w, match os_makedirs (disk w) name with
       | Some fs => (inr (), set_disk w fs)
       | None => (inl IOFailure, w)
       end.

Definition write_file (name : string) (data : list byte) : M unit :=
  λ w, match open_wb_write (disk w) name data with
       | Some fs => (inr (), set_disk w fs)
       | None => (inl IOFailure, w)
       end.

(* ===================================================================== *)
(** ** Request and response schemas *)
(* ===================================================================== *)

(** JSON values as far as the schemas distinguish them. *)
Inductive JSON :=
| JNull
| JString (s : string)
| JOther.                        (* numbers, booleans, arrays, objects *)

Module FeedCreate.
Record t := mk {
  name : string;
  description : option string;   (* Optional[str] = None *)
}.

(** Validation of a JSON object against the schema: [name] must be
    present and a string; [description] may be absent, null or a
    string; other keys are ignored. *)
Definition validate (body : gmap string JSON) : option t :=
  match body !! "name" with
  | Some (JString n) =>
      match body !! "description" with
      | None | Some JNull => Some (mk n None)
      | Some (JString d) => Some (mk n (Some d))
      | Some JOther => None
      end
  | _ => None
  end.
End FeedCreate.

Module FeedResponse.
Record t := mk {
  id : UUID;
  name : string;
  description : option string;
  created_at : Z;
}.

(** [from_attributes = True] *)
Definition from_attributes (f : Feed.t) : t :=
  mk (Feed.id f) (Feed.name f) (Feed.description f) (Feed.created_at f).
End FeedResponse.

(** [UploadFile]: the declared filename and the content of the part. *)
Record UploadFile := {
  filename : string;
  content : list byte;
}.

(** The JSON object [upload_image] answers with. *)
Record UploadReply := {
  message : string;
  image_id : string;
}.

(** One element of the array [list_images] answers with. *)
Record ImageEntry := {
  entry_id : string;
  entry_filename : string;
}.

(* ===================================================================== *)
(** ** The handlers *)
(* ===================================================================== *)

(** The row [Feed(name=.., description=..)] with its defaults. *)
Definition new_feed (feed : FeedCreate.t) (env : Env) : Feed.t :=
  Feed.mk (uuid4 env) (FeedCreate.name feed) (FeedCreate.description feed)
          (utcnow env).

Definition create_feed (feed : FeedCreate.t) (env : Env) : M FeedResponse.t :=
  let db_feed := new_feed feed env in
  add_commit_feed db_feed;;
  db_feed' ← refresh_feed db_feed;
  ret (FeedResponse.from_attributes db_feed').

Definition get_feed (feed_id : UUID) : M FeedResponse.t :=
  feed ← query_feed_first feed_id;
  match feed with
  | None => raise (HTTPException 404 "Feed not found")
  | Some f => ret (FeedResponse.from_attributes f)
  end.

Definition upload_dir (feed_id : UUID) : string :=
  "uploads/" +:+ Uuid.str feed_id.

Definition file_path (feed_id : UUID) (filename : string) : string :=
  upload_dir feed_id +:+ "/" +:+ filename.

(** The row [Image(feed_id=.., filename=.., path=..)] with its defaults. *)
Definition new_image (feed_id : UUID) (file : UploadFile) (env : Env) : Image.t :=
  Image.mk (uuid4 env) feed_id (filename file)
           (file_path feed_id (filename file)) (utcnow env).

Definition upload_image (feed_id : UUID) (file : UploadFile) (env : Env)
  : M UploadReply :=
  feed ← query_feed_first feed_id;
  match feed with
  | None => raise (HTTPException 404 "Feed not found")
  | Some _ =>
      makedirs (upload_dir feed_id);;
      write_file (file_path feed_id (filename file)) (content file);;
      let db_image := new_image feed_id file env in
      add_commit_image db_image;;
      ret {| message := "Image uploaded successfully";
             image_id := Uuid.str (Image.id db_image) |}
  end.

Definition entry_of (img : Image.t) : ImageEntry :=
  {| entry_id := Uuid.str (Image.id img);
     entry_filename := Image.filename img |}.

Definition list_images (feed_id : UUID) : M (list ImageEntry) :=
  imgs ← query_images_all feed_id;
  ret (List.map entry_of imgs).

(** *** The router *)

Inductive Request :=
| PostFeeds (body : gmap string JSON)             (* POST /api/v1/feeds *)
| GetFeed (feed_id : UUID)                        (* GET  /api/v1/feeds/{feed_id} *)
| PostImages (feed_id : UUID) (file : UploadFile) (* POST /api/v1/feeds/{feed_id}/images *)
| GetImages (feed_id : UUID).                     (* GET  /api/v1/feeds/{feed_id}/images *)

Inductive Response :=
| RFeed (r : FeedResponse.t)
| RUpload (r : UploadReply)
| RImages (l : list ImageEntry).

(** POST /api/v1/feeds: the body is validated before the handler runs. *)
Definition post_feeds (body : gmap string JSON) (env : Env) : M FeedResponse.t :=
  match FeedCreate.validate body with
  | None => raise RequestValidationError
  | Some feed => create_feed feed env
  end.

Definition handle (req : Request) (env : Env) : M Response :=
  match req with
  | PostFeeds body => r ← post_feeds body env; ret (RFeed r)
  | GetFeed feed_id => r ← get_feed feed_id; ret (RFeed r)
  | PostImages feed_id file => r ← upload_image feed_id file env; ret (RUpload r)
  | GetImages feed_id => l ← list_images feed_id; ret (RImages l)
  end.

(** *** Reachable worlds *)

(** The service starts on empty tables (whatever is on the disk) and then
    serves requests one after the other. *)
Definition initial (fs : FS) : World :=
  {| feeds := []; images := []; disk := fs |}.

Inductive reachable : World → Prop :=
| reachable_initial fs : reachable (initial fs)
| reachable_handle w req env :
    reachable w → reachable (snd (handle req env w)).

(** [w'] is [w] after serving some more requests. *)
Inductive later : World → World → Prop :=
| later_now w : later w w
| later_handle w w' req env :
    later w w' → later w (snd (handle req env w')).

(* ===================================================================== *)
(** ** Predicates used in the statements *)
(* ===================================================================== *)

(** *** Characters of path strings *)

Fixpoint all_chars (p : ascii → bool) (s : string) : bool :=
  match s with
  | EmptyString => true
  | String c s' => p c && all_chars p s'
  end.

Definition is_slash (c : ascii) : bool := Ascii.eqb c "/".
Definition is_nul (c : ascii) : bool := Ascii.eqb c Ascii.zero.
Definition is_dot (c : ascii) : bool := Ascii.eqb c ".".

(** The characters [str(uuid)] is made of. *)
Definition uuid_char (c : ascii) : bool :=
  bool_decide (c ∈ ["0"; "1"; "2"; "3"; "4"; "5"; "6"; "7"; "8"; "9";
                    "a"; "b"; "c"; "d"; "e"; "f"; "-"]%char).

(** A name that is one ordinary path component. *)
Definition plain_name (s : string) : bool :=
  all_chars (λ c, negb (is_slash c) && negb (is_nul c)) s &&
  match classify s with CName _ => true | _ => false end.

(** *** Directories and storage *)

(** Every directory of [m] is a directory of [m2]. *)
Definition dirs_le (m m2 : gmap location node) : Prop :=
  ∀ q, fs_node m q = Some Dir → fs_node m2 q = Some Dir.

(** A disk on which [upload_image] can store [name] for a feed: the
    working directory exists, neither uploads nor uploads/<id> is a
    regular file, and uploads/<id>/<name> is not a directory. *)
Definition can_store (fs : FS) (feed_id : UUID) (name : string) : bool :=
  let base := cwd fs ++ ["uploads"] in
  match fs_node (nodes fs) (cwd fs) with Some Dir => true | _ => false end &&
  match fs_node (nodes fs) base with Some (File _) => false | _ => true end &&
  match fs_node (nodes fs) (base ++ [Uuid.str feed_id]) with
  | Some (File _) => false | _ => true end &&
  match fs_node (nodes fs) (base ++ [Uuid.str feed_id; name]) with
  | Some Dir => false | _ => true end.

(** The directory an upload to a feed is meant to stay in. *)
Definition feed_dir (fs : FS) (feed_id : UUID) : location :=
  cwd fs ++ ["uploads"; Uuid.str feed_id].

(** *** Identifiers in the tables *)

Definition feed_ids (w : World) : list UUID := Feed.id <$> feeds w.
Definition image_ids (w : World) : list UUID := Image.id <$> images w.

(** The referential invariant: every image row names a feed row. *)
Definition images_owned (w : World) : Prop :=
  ∀ img, img ∈ images w → Image.feed_id img ∈ feed_ids w.

(** The filename that climbs out of one feed's directory into another's. *)
Definition sibling_name (feed_id : UUID) (name : string) : string :=
  "../" +:+ Uuid.str feed_id +:+ "/" +:+ name.

(** A disk that is a tree: the working directory exists, and whatever
    exists lies in a directory. *)
Definition tree_shaped (fs : FS) : Prop :=
  fs_node (nodes fs) (cwd fs) = Some Dir ∧
  ∀ p n, is_Some (nodes fs !! (p ++ [n])) → fs_node (nodes fs) p = Some Dir.

(** The array [list_images] answers with, as a function of the world. *)
Definition listing (feed_id : UUID) (w : World) : list ImageEntry :=
  List.map entry_of (select_images feed_id (images w)).

(** What [mkdir_p] may do to a disk: add directories where nothing was. *)
Definition only_new_dirs (m m' : gmap location node) : Prop :=
  ∀ q, m' !! q = m !! q ∨ (m !! q = None ∧ m' !! q = Some Dir).

(* ===================================================================== *)
(** ** A small deployment, for concrete runs *)
(* ===================================================================== *)

Module Example.

(** The service runs in /srv/app; nothing has been uploaded yet. *)
Definition disk0 : FS :=
  {| nodes := {[ ["srv"] := Dir; ["srv"; "app"] := Dir ]};
     cwd := ["srv"; "app"] |}.

Definition feed_a : UUID := 0x123e4567e89b42d3a456426614174000%N.
Definition feed_b : UUID := 0x00112233445546778899aabbccddeeff%N.
Definition image_a : UUID := 0x9b2f6c1e5d3a4f0e8c7b6a5948372615%N.
Definition image_b : UUID := 0x0f1e2d3c4b5a49788796a5b4c3d2e1f0%N.

Definition env_feed : Env :=
  {| request_time := 1700000000000000; elapsed := 250; random_uuid := feed_a |}.
Definition env_image_a : Env :=
  {| request_time := 1700000001000000; elapsed := 900; random_uuid := image_a |}.
Definition env_image_b : Env :=
  {| request_time := 1700000002000000; elapsed := 0; random_uuid := image_b |}.

Definition vacation : gmap string JSON := {[ "name" := JString "Vacation" ]}.

(** A name with the character NUL in it, ["a\u0000b"] in JSON. *)
Definition nul_name : gmap string JSON :=
  {[ "name" := JString (String "a" (String Ascii.zero "b")) ]}.

Definition cat_png : UploadFile :=
  {| filename := "cat.png"; content := [x89; x50; x4e; x47] |}.
Definition cat_png' : UploadFile :=
  {| filename := "cat.png"; content := [xff; xd8; xff] |}.
Definition evil_png : UploadFile :=
  {| filename := "../evil.png"; content := [x00] |}.

(** One feed. *)
Definition w1 : World := snd (handle (PostFeeds vacation) env_feed (initial disk0)).
(** One feed with one image. *)
Definition w2 : World := snd (handle (PostImages feed_a cat_png) env_image_a w1).

End Example.

(** The deployment, continued: a second feed with an image of its own. *)
Module More.

Definition env_feed_b : Env :=
  {| request_time := 1700000003000000; elapsed := 120;
     random_uuid := Example.feed_b |}.

Definition holidays : gmap string JSON :=
  {[ "name" := JString "Vacation"; "description" := JString "second album";
     "owner" := JOther ]}.

(** Two feeds of the same name, one image in the first. *)
Definition w3 : World :=
  snd (handle (PostFeeds holidays) env_feed_b Example.w2).

(** Both feeds hold a file called cat.png. *)
Definition w4 : World :=
  snd (handle (PostImages Example.feed_b Example.cat_png')
              Example.env_image_b w3).

Definition image_c : UUID := 0x5c3a1f0e9d8b47a6b5c4d3e2f1a09182%N.
Definition env_image_c : Env :=
  {| request_time := 1700000004000000; elapsed := 40; random_uuid := image_c |}.
Definition dog_png : UploadFile :=
  {| filename := "dog.png"; content := [x89; x50] |}.

(** The first feed holds two images, the second one. *)
Definition w5 : World :=
  snd (handle (PostImages Example.feed_a dog_png) env_image_c w4).

(** A filename of 256 bytes, one more than a path component may have. *)
Definition long_name : string :=
  String.string_of_list_ascii (replicate 256 "a"%char).

(** The first disk once the upload directory of the first feed exists. *)
Definition disk1 : FS :=
  {| nodes := {[ ["srv"] := Dir; ["srv"; "app"] := Dir;
                 ["srv"; "app"; "uploads"] := Dir;
                 ["srv"; "app"; "uploads";
                  "123e4567-e89b-42d3-a456-426614174000"] := Dir ]};
     cwd := ["srv"; "app"] |}.

End More.

#[global] Arguments Uuid.str : simpl never.
#[global] Arguments upload_dir : simpl never.
#[global] Arguments file_path : simpl never.
#[global] Arguments os_makedirs : simpl never.
#[global] Arguments open_wb_write : simpl never.
#[global] Arguments resolve_file : simpl never.
#[global] Arguments read_file : simpl never.
#[global] Arguments too_long : simpl never.
#[global] Arguments refused : simpl never.

(* ===================================================================== *)
(** ** Concrete runs *)
(* ===================================================================== *)

Example uuid_str_feed_a :
  Uuid.str Example.feed_a = "123e4567-e89b-42d3-a456-426614174000".
Proof. vm_compute. reflexivity. Qed.

Example create_feed_nul_name :
  post_feeds Example.nul_name Example.env_feed (initial Example.disk0)
  = (inl DataError, initial Example.disk0).
Proof. vm_compute. reflexivity. Qed.

Example upload_long_name :
  fst (upload_image Example.feed_a
         {| filename := More.long_name; content := [x89] |}
         Example.env_image_a Example.w1)
  = inl IOFailure.
Proof. vm_compute. reflexivity. Qed.

Example split_slash_dotdot :
  split_slash "uploads/123e4567/../evil.png"
  = ["uploads"; "123e4567"; ".."; "evil.png"].
Proof. reflexivity. Qed.

(** The feed of the example, as stored. *)
Example example_w1_feeds :
  feeds Example.w1
  = [Feed.mk Example.feed_a "Vacation" None 1700000000000250%Z].
Proof. vm_compute. reflexivity. Qed.

(** A filename with a directory that does not exist: [makedirs] has made
    the upload directory, [open] fails, no row is inserted. *)
Example upload_into_missing_directory :
  let r := upload_image Example.feed_a
             {| filename := "2024/cat.png"; content := [x89] |}
             Example.env_image_a Example.w1 in
  fst r = inl IOFailure ∧
  images (snd r) = [] ∧
  nodes (disk (snd r))
    !! ["srv"; "app"; "uploads"; "123e4567-e89b-42d3-a456-426614174000"]
  = Some Dir.
Proof. vm_compute. repeat split; reflexivity. Qed.

(** An Image identifier that is already taken: the file has been written
    when the commit fails, and stays. *)
Example upload_with_taken_identifier :
  let r := upload_image Example.feed_a
             {| filename := "dog.png"; content := [x01] |}
             Example.env_image_a Example.w2 in
  fst r = inl IntegrityError ∧
  images (snd r) = images Example.w2 ∧
  read_file (disk (snd r)) (file_path Example.feed_a "dog.png") = Some [x01].
Proof. vm_compute. repeat split; reflexivity. Qed.

(* ===================================================================== *)
(** ** Path strings *)
(* ===================================================================== *)

Lemma all_chars_app p a b :
  all_chars p (a +:+ b) = all_chars p a && all_chars p b.
Proof.
  induction a as [|c a IH]; simpl; [done|].
  by rewrite IH, andb_assoc.
Qed.

Lemma all_chars_impl (p q : ascii → bool) s :
  (∀ c, p c = true → q c = true) →
  all_chars p s = true → all_chars q s = true.
Proof.
  intros Hpq. induction s as [|c s IH]; simpl; [done|].
  intros [Hc Hs]%andb_true_iff. apply andb_true_iff. auto.
Qed.

Lemma all_chars_substring p s : ∀ n m,
  all_chars p s = true → all_chars p (String.substring n m s) = true.
Proof.
  induction s as [|c s IH]; intros n m H.
  - by destruct n, m.
  - simpl in H. apply andb_true_iff in H as [Hc Hs].
    destruct n as [|n]; simpl.
    + destruct m as [|m]; simpl; [done|]. rewrite Hc. simpl. by apply IH.
    + by apply IH.
Qed.

Lemma has_nul_all_chars s :
  has_nul s = negb (all_chars (λ c, negb (is_nul c)) s).
Proof.
  induction s as [|c s IH]; simpl; [done|].
  rewrite IH. unfold is_nul. by destruct (Ascii.eqb c Ascii.zero).
Qed.

Lemma has_nul_app a b : has_nul (a +:+ b) = has_nul a || has_nul b.
Proof.
  induction a as [|c a IH]; simpl; [done|].
  by rewrite IH, orb_assoc.
Qed.

Lemma split_slash_nonempty s : split_slash s ≠ [].
Proof.
  destruct s as [|c s]; simpl; [done|].
  destruct (Ascii.eqb c "/"); [done|]. by destruct (split_slash s).
Qed.

(** A string without a slash is a single component. *)
Lemma split_slash_single s :
  all_chars (λ c, negb (is_slash c)) s = true → split_slash s = [s].
Proof.
  induction s as [|c s IH]; simpl; [done|].
  intros [Hc Hs]%andb_true_iff. unfold is_slash in Hc.
  destruct (Ascii.eqb c "/"); [done|]. by rewrite (IH Hs).
Qed.

(** Splitting distributes over a joining slash, when the left part is
    itself a single component. *)
Lemma split_slash_join a b :
  all_chars (λ c, negb (is_slash c)) a = true →
  split_slash (a +:+ "/" +:+ b) = a :: split_slash b.
Proof.
  induction a as [|c a IH]; simpl; [done|].
  intros [Hc Hs]%andb_true_iff. unfold is_slash in Hc.
  destruct (Ascii.eqb c "/"); [done|]. by rewrite (IH Hs).
Qed.

Lemma classify_name s :
  s ≠ "" → all_chars (λ c, negb (is_dot c)) s = true → classify s = CName s.
Proof.
  destruct s as [|c s]; [done|]. simpl. intros _ [Hc _]%andb_true_iff.
  unfold classify, is_dot in *. simpl.
  by destruct (Ascii.eqb c ".").
Qed.

Lemma classify_CName s n : classify s = CName n → n = s.
Proof.
  unfold classify. repeat case_match; congruence.
Qed.

(** *** The text of an identifier *)

Lemma hex_digit_uuid_char d : uuid_char (Uuid.hex_digit d) = true.
Proof.
  destruct d as [|p]; [reflexivity|].
  do 5 (try destruct p as [p|p|]); reflexivity.
Qed.

Lemma hex_digits_uuid_char k : ∀ n,
  all_chars uuid_char (Uuid.hex_digits k n) = true.
Proof.
  induction k as [|k IH]; intros n; simpl; [done|].
  rewrite all_chars_app, IH. simpl. by rewrite hex_digit_uuid_char.
Qed.

Lemma uuid_str_chars u : all_chars uuid_char (Uuid.str u) = true.
Proof.
  unfold Uuid.str, Uuid.hyphenate, Uuid.hex.
  repeat (rewrite all_chars_app; apply andb_true_iff; split);
    try reflexivity;
    apply all_chars_substring, hex_digits_uuid_char.
Qed.

Lemma uuid_str_nonempty u : Uuid.str u ≠ "".
Proof.
  unfold Uuid.str, Uuid.hyphenate.
  destruct (String.substring 0 8 (Uuid.hex u)); done.
Qed.

Lemma uuid_str_no_slash u :
  all_chars (λ c, negb (is_slash c)) (Uuid.str u) = true.
Proof.
  eapply all_chars_impl; [|apply uuid_str_chars].
  intros c Hc. apply bool_decide_eq_true in Hc.
  repeat (apply elem_of_cons in Hc as [->|Hc]; [reflexivity|]).
  by apply elem_of_nil in Hc.
Qed.

Lemma uuid_str_no_nul u : has_nul (Uuid.str u) = false.
Proof.
  rewrite has_nul_all_chars. apply negb_false_iff.
  eapply all_chars_impl; [|apply uuid_str_chars].
  intros c Hc. apply bool_decide_eq_true in Hc.
  repeat (apply elem_of_cons in Hc as [->|Hc]; [reflexivity|]).
  by apply elem_of_nil in Hc.
Qed.

Lemma uuid_str_classify u : classify (Uuid.str u) = CName (Uuid.str u).
Proof.
  apply classify_name; [apply uuid_str_nonempty|].
  eapply all_chars_impl; [|apply uuid_str_chars].
  intros c Hc. apply bool_decide_eq_true in Hc.
  repeat (apply elem_of_cons in Hc as [->|Hc]; [reflexivity|]).
  by apply elem_of_nil in Hc.
Qed.

(** [str] is injective on 128-bit identifiers. *)

Lemma string_length_app a b :
  String.length (a +:+ b) = String.length a + String.length b.
Proof. induction a as [|c a IH]; simpl; [done|]. by rewrite IH. Qed.

Lemma string_snoc_inj a b c d :
  a +:+ String c "" = b +:+ String d "" → a = b ∧ c = d.
Proof.
  revert b. induction a as [|x a IH]; intros [|y b]; simpl.
  - by intros [= ->].
  - intros [= -> H]. by destruct b.
  - intros [= -> H]. by destruct a.
  - intros [= -> H]. destruct (IH _ H) as [-> ->]. done.
Qed.

Lemma hex_val_digit d : (d < 16)%N → Uuid.hex_val (Uuid.hex_digit d) = d.
Proof.
  destruct d as [|p]; [reflexivity|].
  do 5 (try destruct p as [p|p|]); (reflexivity || lia).
Qed.

Lemma hex_digits_length k : ∀ n, String.length (Uuid.hex_digits k n) = k.
Proof.
  induction k as [|k IH]; intros n; simpl; [done|].
  rewrite string_length_app, IH. simpl. lia.
Qed.

Lemma hex_digits_inj k : ∀ n m,
  (n < 16 ^ N.of_nat k)%N → (m < 16 ^ N.of_nat k)%N →
  Uuid.hex_digits k n = Uuid.hex_digits k m → n = m.
Proof.
  induction k as [|k IH]; intros n m Hn Hm.
  - simpl in *. lia.
  - rewrite Nat2N.inj_succ, N.pow_succ_r' in Hn, Hm. simpl.
    intros [Hhi Hlo]%string_snoc_inj.
    apply IH in Hhi; [|by apply N.Div0.div_lt_upper_bound..].
    apply (f_equal Uuid.hex_val) in Hlo.
    rewrite !hex_val_digit in Hlo by by apply N.mod_lt.
    rewrite (N.div_mod n 16), (N.div_mod m 16) by done. by rewrite Hhi, Hlo.
Qed.

Lemma unhyphenate_hyphenate h :
  String.length h = 32 → Uuid.unhyphenate (Uuid.hyphenate h) = h.
Proof.
  do 32 (destruct h as [|? h]; [discriminate|]).
  destruct h; [reflexivity|discriminate].
Qed.

Lemma uuid_str_inj u v :
  Uuid.valid u → Uuid.valid v → Uuid.str u = Uuid.str v → u = v.
Proof.
  unfold Uuid.valid, Uuid.str. intros Hu Hv Heq.
  apply (f_equal Uuid.unhyphenate) in Heq.
  rewrite !unhyphenate_hyphenate in Heq by apply hex_digits_length.
  by apply (hex_digits_inj 32).
Qed.

(** The two path strings of [upload_image], split into components. *)
Lemma split_upload_dir feed_id :
  split_slash (upload_dir feed_id) = ["uploads"; Uuid.str feed_id].
Proof.
  unfold upload_dir.
  change ("uploads/" +:+ Uuid.str feed_id)
    with ("uploads" +:+ "/" +:+ Uuid.str feed_id).
  rewrite split_slash_join by reflexivity.
  by rewrite split_slash_single by apply uuid_str_no_slash.
Qed.

Lemma split_file_path feed_id name :
  split_slash (file_path feed_id name)
  = "uploads" :: Uuid.str feed_id :: split_slash name.
Proof.
  unfold file_path, upload_dir.
  change (("uploads/" +:+ Uuid.str feed_id) +:+ "/" +:+ name)
    with ("uploads" +:+ "/" +:+ (Uuid.str feed_id +:+ "/" +:+ name)).
  rewrite split_slash_join by reflexivity.
  by rewrite split_slash_join by apply uuid_str_no_slash.
Qed.

Lemma has_nul_upload_dir feed_id : has_nul (upload_dir feed_id) = false.
Proof.
  unfold upload_dir. rewrite has_nul_app, uuid_str_no_nul. reflexivity.
Qed.

Lemma has_nul_file_path feed_id name :
  has_nul (file_path feed_id name) = has_nul name.
Proof.
  unfold file_path. rewrite !has_nul_app, has_nul_upload_dir. reflexivity.
Qed.

Lemma start_dir_upload_dir fs feed_id :
  start_dir fs (upload_dir feed_id) = cwd fs.
Proof. reflexivity. Qed.

Lemma start_dir_file_path fs feed_id name :
  start_dir fs (file_path feed_id name) = cwd fs.
Proof. reflexivity. Qed.

(** *** Path strings the system calls accept *)

Lemma hyphenate_length h :
  String.length h = 32 → String.length (Uuid.hyphenate h) = 36.
Proof.
  do 32 (destruct h as [|? h]; [discriminate|]).
  destruct h; [reflexivity|discriminate].
Qed.

Lemma uuid_str_length u : String.length (Uuid.str u) = 36.
Proof. apply hyphenate_length, hex_digits_length. Qed.

Lemma existsb_false_Forall {A} (f : A → bool) l :
  existsb f l = false ↔ Forall (λ x, f x = false) l.
Proof.
  induction l as [|a l IH]; simpl; [by split; [constructor|]|].
  rewrite orb_false_iff, IH, Forall_cons. done.
Qed.

Lemma too_long_false s :
  too_long s = false ↔
  String.length s < PATH_MAX ∧
  Forall (λ c, String.length c ≤ NAME_MAX) (split_slash s).
Proof.
  unfold too_long. rewrite orb_false_iff, Nat.leb_gt, existsb_false_Forall.
  split; intros [Hp Hc]; (split; [done|]); eapply Forall_impl; try exact Hc;
    intros c; cbv beta; rewrite Nat.ltb_ge; done.
Qed.

Lemma refused_false s :
  refused s = false ↔ has_nul s = false ∧ too_long s = false.
Proof. unfold refused. apply orb_false_iff. Qed.

Lemma upload_dir_length feed_id : String.length (upload_dir feed_id) = 44.
Proof.
  unfold upload_dir. rewrite string_length_app, uuid_str_length. reflexivity.
Qed.

Lemma file_path_length feed_id name :
  String.length (file_path feed_id name) = 45 + String.length name.
Proof.
  unfold file_path. rewrite !string_length_app, upload_dir_length. reflexivity.
Qed.

Lemma refused_upload_dir feed_id : refused (upload_dir feed_id) = false.
Proof.
  apply refused_false. split; [apply has_nul_upload_dir|].
  apply too_long_false. rewrite upload_dir_length, split_upload_dir.
  split; [unfold PATH_MAX; lia|].
  apply Forall_cons. split; [unfold NAME_MAX; simpl; lia|].
  apply Forall_cons. split; [rewrite uuid_str_length; unfold NAME_MAX; lia|].
  constructor.
Qed.

(** For a path string of an upload the verdict depends on the filename. *)
Lemma refused_file_path feed_id name :
  refused (file_path feed_id name) = false ↔
  has_nul name = false ∧
  45 + String.length name < PATH_MAX ∧
  Forall (λ c, String.length c ≤ NAME_MAX) (split_slash name).
Proof.
  rewrite refused_false, too_long_false, has_nul_file_path, file_path_length,
    split_file_path, !Forall_cons, uuid_str_length.
  unfold NAME_MAX. simpl String.length. intuition lia.
Qed.

Lemma refused_file_path_plain feed_id name :
  split_slash name = [name] → has_nul name = false →
  String.length name ≤ NAME_MAX →
  refused (file_path feed_id name) = false.
Proof.
  intros Hsplit Hnul Hlen. apply refused_file_path. rewrite Hsplit.
  split; [done|]. split; [unfold NAME_MAX, PATH_MAX in *; lia|].
  apply Forall_cons. split; [done|constructor].
Qed.

(* ===================================================================== *)
(** ** Filesystem lemmas *)
(* ===================================================================== *)

Lemma dirs_le_refl m : dirs_le m m.
Proof. by intros q. Qed.

Lemma dirs_le_trans m1 m2 m3 : dirs_le m1 m2 → dirs_le m2 m3 → dirs_le m1 m3.
Proof. intros H12 H23 q Hq. auto. Qed.

Lemma fs_node_snoc m p n : fs_node m (p ++ [n]) = m !! (p ++ [n]).
Proof. by destruct p. Qed.

Lemma dirs_le_insert_dir m p : dirs_le m (<[p := Dir]> m).
Proof.
  intros q Hq. destruct q as [|c q]; [done|]. simpl in *.
  destruct (decide (p = c :: q)) as [->|Hne].
  - by rewrite lookup_insert_eq.
  - by rewrite lookup_insert_ne.
Qed.

Lemma dirs_le_insert_file m p data :
  fs_node m p ≠ Some Dir → dirs_le m (<[p := File data]> m).
Proof.
  intros Hp q Hq. destruct q as [|c q]; [done|]. simpl in *.
  destruct (decide (p = c :: q)) as [->|Hne].
  - by destruct Hp.
  - by rewrite lookup_insert_ne.
Qed.

Lemma walk_mono m m2 :
  dirs_le m m2 → ∀ cs cur d, walk m cur cs = Some d → walk m2 cur cs = Some d.
Proof.
  intros Hle. induction cs as [|c cs IH]; intros cur d; simpl; [done|].
  destruct (classify c) as [| |n]; [apply IH..|].
  destruct (fs_node m (cur ++ [n])) as [[|?]|] eqn:Hn; [|done..].
  rewrite (Hle _ Hn). apply IH.
Qed.

Lemma mkdir_p_dirs_le : ∀ cs m cur m',
  mkdir_p m cur cs = Some m' → dirs_le m m'.
Proof.
  induction cs as [|c cs IH]; intros m cur m'; simpl.
  - intros [= ->]. apply dirs_le_refl.
  - destruct (classify c) as [| |n]; [apply IH..|].
    destruct (fs_node m (cur ++ [n])) as [[|?]|] eqn:Hn; [apply IH|done|].
    intros H. eapply dirs_le_trans; [apply dirs_le_insert_dir|].
    eapply IH, H.
Qed.

(** After [makedirs] the whole chain of directories can be walked. *)
Lemma mkdir_p_walk : ∀ cs m cur m',
  mkdir_p m cur cs = Some m' → is_Some (walk m' cur cs).
Proof.
  induction cs as [|c cs IH]; intros m cur m'; simpl; [by eauto|].
  destruct (classify c) as [| |n]; [apply IH..|].
  destruct (fs_node m (cur ++ [n])) as [[|?]|] eqn:Hn; [|done|]; intros H.
  - rewrite (mkdir_p_dirs_le _ _ _ _ H _ Hn). eapply IH, H.
  - assert (fs_node m' (cur ++ [n]) = Some Dir) as ->.
    { apply (mkdir_p_dirs_le _ _ _ _ H).
      rewrite fs_node_snoc. apply lookup_insert_eq. }
    eapply IH, H.
Qed.

(** Where the chain can be walked, [makedirs] changes nothing. *)
Lemma walk_mkdir_p : ∀ cs m cur d,
  walk m cur cs = Some d → mkdir_p m cur cs = Some m.
Proof.
  induction cs as [|c cs IH]; intros m cur d; simpl; [done|].
  destruct (classify c) as [| |n]; [apply IH..|].
  destruct (fs_node m (cur ++ [n])) as [[|?]|]; [apply IH|done..].
Qed.

Lemma resolve_file_not_dir fs name p :
  resolve_file fs name = Some p → fs_node (nodes fs) p ≠ Some Dir.
Proof.
  unfold resolve_file. intros H.
  repeat (case_match; simplify_option_eq; try done).
  all: congruence.
Qed.

Lemma resolve_file_nonroot fs name p : resolve_file fs name = Some p → p ≠ [].
Proof.
  intros H%resolve_file_not_dir ->. by apply H.
Qed.

(** Resolution only looks at directories: it gives the same location in
    any filesystem with at least the same directories, as long as the
    location itself has not become one. *)
Lemma resolve_file_mono fs fs2 name p :
  cwd fs2 = cwd fs →
  dirs_le (nodes fs) (nodes fs2) →
  fs_node (nodes fs2) p ≠ Some Dir →
  resolve_file fs name = Some p →
  resolve_file fs2 name = Some p.
Proof.
  unfold resolve_file, start_dir. intros Hcwd Hle Hp.
  rewrite Hcwd. destruct (refused name); [done|].
  destruct (fs_node (nodes fs) _) as [[|?]|] eqn:Hs; [|done..].
  rewrite (Hle _ Hs).
  destruct (walk (nodes fs) _ _) as [d|] eqn:Hw; [|done]. simpl.
  rewrite (walk_mono _ _ Hle _ _ _ Hw). simpl.
  destruct (classify _) as [| |n]; [done..|].
  intros H. assert (p = d ++ [n]) as -> by (by repeat case_match; simplify_eq).
  by repeat case_match.
Qed.

Lemma open_wb_write_inv fs name data fs' :
  open_wb_write fs name data = Some fs' →
  ∃ p, resolve_file fs name = Some p ∧
       fs' = {| nodes := <[p := File data]> (nodes fs); cwd := cwd fs |}.
Proof.
  unfold open_wb_write. destruct (resolve_file fs name) as [p|]; [|done].
  simpl. intros [= <-]. eauto.
Qed.

(** After a write, the same path string still names the written file. *)
Lemma resolve_after_write fs name data p :
  resolve_file fs name = Some p →
  resolve_file {| nodes := <[p := File data]> (nodes fs); cwd := cwd fs |} name
  = Some p.
Proof.
  intros Hp. apply (resolve_file_mono fs _ name p); simpl; [done| | |done].
  - apply dirs_le_insert_file. by eapply resolve_file_not_dir.
  - destruct p as [|c p]; [by apply resolve_file_nonroot in Hp|].
    simpl. by rewrite lookup_insert_eq.
Qed.

(** Reading back what was written. *)
Lemma read_after_write fs name data fs' :
  open_wb_write fs name data = Some fs' → read_file fs' name = Some data.
Proof.
  intros (p & Hp & ->)%open_wb_write_inv. unfold read_file.
  rewrite (resolve_after_write _ _ data _ Hp). simpl.
  by rewrite lookup_insert_eq.
Qed.


Lemma os_makedirs_inv fs name fs1 :
  os_makedirs fs name = Some fs1 →
  cwd fs1 = cwd fs ∧ dirs_le (nodes fs) (nodes fs1) ∧
  fs_node (nodes fs1) (start_dir fs name) = Some Dir ∧
  is_Some (walk (nodes fs1) (start_dir fs name) (split_slash name)).
Proof.
  unfold os_makedirs. destruct (refused name); [done|].
  destruct (fs_node (nodes fs) _) as [[|?]|] eqn:Hs; [|done..].
  destruct (mkdir_p _ _ _) as [m|] eqn:Hm; [|done]. simpl. intros [= <-].
  simpl. pose proof (mkdir_p_dirs_le _ _ _ _ Hm) as Hle.
  repeat split; [done|by apply Hle|by eapply mkdir_p_walk].
Qed.

(** Once the directories exist, [makedirs] is the identity, also after
    files have been written. *)
Lemma os_makedirs_again fs name fs1 fs2 :
  os_makedirs fs name = Some fs1 →
  cwd fs2 = cwd fs1 → dirs_le (nodes fs1) (nodes fs2) →
  os_makedirs fs2 name = Some fs2.
Proof.
  intros Hmk Hcwd Hle.
  pose proof (os_makedirs_inv _ _ _ Hmk) as (Hc & _ & Hs & [d Hw]).
  unfold os_makedirs in *. destruct (refused name); [done|].
  unfold start_dir in *. rewrite Hcwd, Hc.
  rewrite (Hle _ Hs).
  rewrite (walk_mkdir_p _ _ _ _ (walk_mono _ _ Hle _ _ _ Hw)). simpl.
  destruct fs2; simpl in *. by rewrite <- Hc, <- Hcwd.
Qed.

(* ===================================================================== *)
(** ** Store lemmas *)
(* ===================================================================== *)

Lemma select_feed_None feed_id tbl :
  select_feed feed_id tbl = None ↔ feed_id ∉ Feed.id <$> tbl.
Proof.
  unfold select_feed. induction tbl as [|f tbl IH]; simpl.
  - split; [|done]. intros _ H. by apply elem_of_nil in H.
  - rewrite not_elem_of_cons. destruct (N.eqb_spec (Feed.id f) feed_id).
    + split; [done|]. by intros [? _].
    + rewrite IH. split; [done|]. by intros [_ ?].
Qed.

Lemma select_feed_Some feed_id tbl f :
  select_feed feed_id tbl = Some f → f ∈ tbl ∧ Feed.id f = feed_id.
Proof.
  unfold select_feed. intros H. apply find_some in H as [Hin Heq].
  split; [by apply list_elem_of_In|by apply N.eqb_eq].
Qed.

Lemma select_feed_is_Some feed_id tbl :
  is_Some (select_feed feed_id tbl) ↔ feed_id ∈ Feed.id <$> tbl.
Proof.
  rewrite <- not_eq_None_Some, select_feed_None.
  destruct (decide (feed_id ∈ Feed.id <$> tbl)); tauto.
Qed.

(** Rows appended to the table do not change an earlier answer. *)
Lemma select_feed_app_l feed_id tbl tbl' f :
  select_feed feed_id tbl = Some f → select_feed feed_id (tbl ++ tbl') = Some f.
Proof.
  unfold select_feed. induction tbl as [|g tbl IH]; simpl; [done|].
  destruct (N.eqb (Feed.id g) feed_id); [done|apply IH].
Qed.

Lemma select_feed_app_r feed_id tbl tbl' :
  select_feed feed_id tbl = None →
  select_feed feed_id (tbl ++ tbl') = select_feed feed_id tbl'.
Proof.
  unfold select_feed. induction tbl as [|g tbl IH]; simpl; [done|].
  destruct (N.eqb (Feed.id g) feed_id); [done|apply IH].
Qed.

Lemma select_images_app feed_id tbl tbl' :
  select_images feed_id (tbl ++ tbl')
  = select_images feed_id tbl ++ select_images feed_id tbl'.
Proof. apply List.filter_app. Qed.

Lemma select_images_elem feed_id tbl img :
  img ∈ select_images feed_id tbl ↔ img ∈ tbl ∧ Image.feed_id img = feed_id.
Proof.
  unfold select_images. rewrite !list_elem_of_In, List.filter_In.
  by rewrite N.eqb_eq.
Qed.


(** *** What each handler does, case by case *)

Lemma create_feed_eq feed env w :
  create_feed feed env w =
  if has_nul (FeedCreate.name feed) || text_has_nul (FeedCreate.description feed)
  then (inl DataError, w)
  else if decide (uuid4 env ∈ feed_ids w) then (inl IntegrityError, w)
  else (inr (FeedResponse.from_attributes (new_feed feed env)),
        set_feeds w (feeds w ++ [new_feed feed env])).
Proof.
  unfold create_feed, mbind, M_bind, bind, add_commit_feed, feed_ids. simpl.
  destruct (has_nul _ || _); [done|].
  destruct (decide _) as [|Hfresh]; [done|].
  unfold refresh_feed, mbind, M_bind, bind, query_feed_first. simpl.
  rewrite select_feed_app_r by by apply select_feed_None.
  unfold select_feed. simpl. by rewrite N.eqb_refl.
Qed.

Lemma get_feed_eq feed_id w :
  get_feed feed_id w =
  match select_feed feed_id (feeds w) with
  | Some f => (inr (FeedResponse.from_attributes f), w)
  | None => (inl (HTTPException 404 "Feed not found"), w)
  end.
Proof.
  unfold get_feed, mbind, M_bind, bind, query_feed_first.
  by destruct (select_feed feed_id (feeds w)).
Qed.

Lemma list_images_eq feed_id w :
  list_images feed_id w
  = (inr (List.map entry_of (select_images feed_id (images w))), w).
Proof. reflexivity. Qed.

(** A path string that resolves was not refused. *)
Lemma resolve_file_accepts fs name p :
  resolve_file fs name = Some p → refused name = false.
Proof. unfold resolve_file. by destruct (refused name). Qed.

(** What reaches the INSERT of an Image row has no NUL in its texts:
    [open] has refused the others. *)
Lemma open_wb_write_no_nul fs feed_id name data fs2 :
  open_wb_write fs (file_path feed_id name) data = Some fs2 →
  has_nul name || has_nul (file_path feed_id name) = false.
Proof.
  intros (p & Hres & _)%open_wb_write_inv.
  apply resolve_file_accepts, refused_false in Hres as [Hnul _].
  rewrite Hnul. rewrite has_nul_file_path in Hnul. by rewrite Hnul.
Qed.

(** [upload_image], step by step. *)
Lemma upload_image_eq feed_id file env w :
  upload_image feed_id file env w =
  match select_feed feed_id (feeds w) with
  | None => (inl (HTTPException 404 "Feed not found"), w)
  | Some _ =>
      match os_makedirs (disk w) (upload_dir feed_id) with
      | None => (inl IOFailure, w)
      | Some fs1 =>
          match open_wb_write fs1 (file_path feed_id (filename file))
                              (content file) with
          | None => (inl IOFailure, set_disk w fs1)
          | Some fs2 =>
              if decide (uuid4 env ∈ image_ids w)
              then (inl IntegrityError, set_disk w fs2)
              else (inr {| message := "Image uploaded successfully";
                           image_id := Uuid.str (uuid4 env) |},
                    {| feeds := feeds w;
                       images := images w ++ [new_image feed_id file env];
                       disk := fs2 |})
          end
      end
  end.
Proof.
  unfold upload_image, mbind, M_bind, bind, query_feed_first, image_ids.
  destruct (select_feed feed_id (feeds w)); [|done].
  unfold makedirs, write_file, add_commit_image.
  destruct (os_makedirs (disk w) _); [|done].
  cbn [disk images feeds set_disk set_images].
  destruct (open_wb_write _ _ _) eqn:Hwr; [|done].
  cbn [disk images feeds set_disk set_images new_image
       Image.id Image.filename Image.path].
  rewrite (open_wb_write_no_nul _ _ _ _ _ Hwr).
  by destruct (decide _).
Qed.

Lemma upload_image_not_found feed_id file env w :
  select_feed feed_id (feeds w) = None →
  upload_image feed_id file env w
  = (inl (HTTPException 404 "Feed not found"), w).
Proof.
  intros H. unfold upload_image, mbind, M_bind, bind, query_feed_first.
  by rewrite H.
Qed.

(** A successful upload, taken apart into its four steps. *)
Lemma upload_image_ok feed_id file env w reply w' :
  upload_image feed_id file env w = (inr reply, w') ↔
  ∃ fs1 fs2,
    feed_id ∈ feed_ids w ∧
    os_makedirs (disk w) (upload_dir feed_id) = Some fs1 ∧
    open_wb_write fs1 (file_path feed_id (filename file)) (content file)
      = Some fs2 ∧
    (uuid4 env ∉ image_ids w) ∧
    reply = {| message := "Image uploaded successfully";
               image_id := Uuid.str (uuid4 env) |} ∧
    w' = {| feeds := feeds w;
            images := images w ++ [new_image feed_id file env];
            disk := fs2 |}.
Proof.
  rewrite upload_image_eq. unfold feed_ids.
  destruct (select_feed feed_id (feeds w)) as [f|] eqn:Hf.
  2:{ apply select_feed_None in Hf. split; [done|].
      by intros (? & ? & ? & _). }
  assert (feed_id ∈ Feed.id <$> feeds w) as Hin
    by (apply select_feed_is_Some; eauto).
  destruct (os_makedirs (disk w) _) as [fs1|];
    [|split; [done|by intros (? & ? & _ & ? & _)]].
  destruct (open_wb_write fs1 _ _) as [fs2|] eqn:Hw.
  2:{ split; [done|]. intros (? & ? & _ & [= <-] & ? & _). congruence. }
  destruct (decide _) as [Hdup|Hfresh].
  { split; [done|]. by intros (? & ? & _ & _ & _ & ? & _). }
  split.
  - intros [= <- <-]. by exists fs1, fs2.
  - intros (? & ? & _ & [= <-] & Hw' & _ & -> & ->).
    rewrite Hw in Hw'. by injection Hw' as <-.
Qed.

Lemma post_feeds_eq body env w :
  post_feeds body env w =
  match FeedCreate.validate body with
  | None => (inl RequestValidationError, w)
  | Some feed => create_feed feed env w
  end.
Proof. unfold post_feeds. by destruct (FeedCreate.validate body). Qed.

(** *** How one request changes the tables *)

Lemma upload_image_tables feed_id file env w :
  feeds (snd (upload_image feed_id file env w)) = feeds w ∧
  (images (snd (upload_image feed_id file env w)) = images w ∨
   (∃ reply w', upload_image feed_id file env w = (inr reply, w')) ∧
   images (snd (upload_image feed_id file env w))
   = images w ++ [new_image feed_id file env]).
Proof.
  rewrite upload_image_eq.
  destruct (select_feed feed_id (feeds w)); [|by auto].
  destruct (os_makedirs (disk w) _); [|by auto].
  destruct (open_wb_write _ _ _); [|by auto].
  destruct (decide _); [by auto|].
  cbn [snd disk images feeds]. split; [done|]. right. eauto.
Qed.

Lemma create_feed_tables feed env w :
  images (snd (create_feed feed env w)) = images w ∧
  disk (snd (create_feed feed env w)) = disk w ∧
  (feeds (snd (create_feed feed env w)) = feeds w ∨
   feeds (snd (create_feed feed env w)) = feeds w ++ [new_feed feed env]).
Proof.
  rewrite create_feed_eq. destruct (has_nul _ || _); [simpl; auto|].
  destruct (decide _); simpl; auto.
Qed.

Lemma extends_refl {A} (l : list A) : ∃ new, l = l ++ new.
Proof. exists []. symmetry. apply app_nil_r. Qed.

(** The tables after a request: rows are only ever appended, a feed by a
    feed creation, an image by a successful upload. *)
Lemma handle_tables req env w :
  (∃ new, feeds (snd (handle req env w)) = feeds w ++ new) ∧
  (images (snd (handle req env w)) = images w ∨
   ∃ feed_id file reply w',
     req = PostImages feed_id file ∧
     upload_image feed_id file env w = (inr reply, w') ∧
     snd (handle req env w) = w' ∧
     images w' = images w ++ [new_image feed_id file env]).
Proof.
  destruct req as [body|feed_id|feed_id file|feed_id];
    unfold handle, mbind, M_bind, bind.
  - rewrite post_feeds_eq. destruct (FeedCreate.validate body) as [feed|].
    + destruct (create_feed_tables feed env w) as (Hi & _ & Hf).
      destruct (create_feed feed env w) as [[e|r] w'];
        cbn [snd ret] in *; (split; [|by left]);
        destruct Hf as [->| ->]; eauto using extends_refl.
    + cbn [snd]. split; [apply extends_refl|by left].
  - rewrite get_feed_eq. destruct (select_feed _ _); cbn [snd ret];
      (split; [apply extends_refl|by left]).
  - destruct (upload_image_tables feed_id file env w) as (Hf & Hi).
    destruct (upload_image feed_id file env w) as [[e|r] w'] eqn:Hup;
      cbn [snd ret] in *.
    + split; [rewrite Hf; apply extends_refl|].
      destruct Hi as [Hi|[(? & ? & [=]) _]]. by left.
    + split; [rewrite Hf; apply extends_refl|].
      destruct Hi as [Hi|[_ Hi]]; [by left|]. right.
      by exists feed_id, file, r, w'.
  - rewrite list_images_eq. cbn [snd ret].
    split; [apply extends_refl|by left].
Qed.

Lemma later_trans w1 w2 w3 : later w1 w2 → later w2 w3 → later w1 w3.
Proof. intros H12 H23. induction H23; [done|]. constructor. auto. Qed.

Lemma later_feeds w w' : later w w' → ∃ new, feeds w' = feeds w ++ new.
Proof.
  induction 1 as [|w w' req env _ [new IH]].
  - exists []. by rewrite app_nil_r.
  - destruct (handle_tables req env w') as [[new' Hf] _].
    exists (new ++ new'). by rewrite Hf, IH, app_assoc.
Qed.

Lemma feed_ids_app w new l :
  feeds w = l ++ new → ∀ i, i ∈ Feed.id <$> l → i ∈ feed_ids w.
Proof.
  intros Hf i Hi. unfold feed_ids. rewrite Hf, fmap_app.
  apply elem_of_app. by left.
Qed.

Lemma reachable_images_owned w : reachable w → images_owned w.
Proof.
  induction 1 as [fs|w req env _ IH]; intros img Himg.
  - by apply elem_of_nil in Himg.
  - destruct (handle_tables req env w) as [[new Hf] Hi].
    destruct Hi as [Hi|(fid & file & reply & w' & -> & Hup & Hw' & Hi)].
    + rewrite Hi in Himg. eapply feed_ids_app; [done|]. by apply IH.
    + rewrite Hw' in *. rewrite Hi in Himg.
      apply elem_of_app in Himg as [Himg|Himg].
      * eapply feed_ids_app; [done|]. by apply IH.
      * apply list_elem_of_singleton in Himg as ->.
        apply upload_image_ok in Hup as (_ & _ & Hin & _).
        eapply feed_ids_app; [done|]. exact Hin.
Qed.

(** *** The primary key of [feeds] *)

Lemma select_feed_NoDup tbl f :
  NoDup (Feed.id <$> tbl) → f ∈ tbl → select_feed (Feed.id f) tbl = Some f.
Proof.
  unfold select_feed. induction tbl as [|g tbl IH]; intros Hnd Hin.
  - by apply elem_of_nil in Hin.
  - rewrite fmap_cons in Hnd. apply NoDup_cons in Hnd as [Hg Hnd].
    simpl. apply elem_of_cons in Hin as [->|Hin].
    + by rewrite N.eqb_refl.
    + destruct (N.eqb_spec (Feed.id g) (Feed.id f)) as [Heq|_]; [|by apply IH].
      destruct Hg. rewrite Heq. by apply list_elem_of_fmap_2.
Qed.

(** A request leaves [feeds] alone or appends one row with a new key. *)
Lemma handle_feeds req env w :
  feeds (snd (handle req env w)) = feeds w ∨
  ∃ row, feeds (snd (handle req env w)) = feeds w ++ [row] ∧
         Feed.id row ∉ feed_ids w.
Proof.
  destruct req as [body|feed_id|feed_id file|feed_id];
    unfold handle, mbind, M_bind, bind.
  - rewrite post_feeds_eq. destruct (FeedCreate.validate body) as [feed|];
      [|by left].
    rewrite create_feed_eq. destruct (has_nul _ || _); [by left|].
    destruct (decide _) as [|Hfresh]; [by left|].
    right. by exists (new_feed feed env).
  - rewrite get_feed_eq. by destruct (select_feed _ _); left.
  - destruct (upload_image_tables feed_id file env w) as [Hf _].
    destruct (upload_image feed_id file env w) as [[e|r] w']; by left.
  - by left.
Qed.

Lemma reachable_feed_ids_NoDup w : reachable w → NoDup (feed_ids w).
Proof.
  induction 1 as [fs|w req env _ IH]; [constructor|].
  unfold feed_ids in *.
  destruct (handle_feeds req env w) as [->|(row & -> & Hfresh)]; [done|].
  rewrite fmap_app. apply NoDup_app. split; [done|]. split.
  - intros i Hi Hrow. apply list_elem_of_singleton in Hrow as ->. by apply Hfresh.
  - apply NoDup_singleton.
Qed.

(* ===================================================================== *)
(** ** Uploads and the disk *)
(* ===================================================================== *)

Lemma request_time_le_utcnow env : (request_time env ≤ utcnow env)%Z.
Proof. unfold utcnow. lia. Qed.

(** The example worlds are reachable, and the second one holds an image. *)
Lemma reachable_w1 : reachable Example.w1.
Proof. apply (reachable_handle (initial Example.disk0)), reachable_initial. Defined.

Lemma reachable_w2 : reachable Example.w2.
Proof. apply (reachable_handle Example.w1), reachable_w1. Defined.

Lemma example_w2_tables :
  feed_ids Example.w2 = [Example.feed_a] ∧
  images Example.w2
  = [Image.mk Example.image_a Example.feed_a "cat.png"
              "uploads/123e4567-e89b-42d3-a456-426614174000/cat.png"
              1700000001000900%Z].
Proof. split; vm_compute; reflexivity. Qed.

Lemma snoc_ne_snoc2 (p : location) a b c : p ++ [a] ≠ p ++ [b; c].
Proof. intros H. apply (f_equal length) in H. rewrite !length_app in H. simpl in H. lia. Qed.

Lemma snoc3_ne_snoc (p : location) a b c d : p ++ [a; b; c] ≠ p ++ [d].
Proof.
  intros H; apply (f_equal length) in H; rewrite !length_app in H; simpl in H; lia.
Qed.

Lemma snoc3_ne_snoc2 (p : location) a b c d e : p ++ [a; b; c] ≠ p ++ [d; e].
Proof.
  intros H; apply (f_equal length) in H; rewrite !length_app in H; simpl in H; lia.
Qed.

(** [makedirs] for the two components of an upload directory. *)
Lemma mkdir_p_two m cur a b :
  classify a = CName a → classify b = CName b →
  (∀ d, fs_node m (cur ++ [a]) ≠ Some (File d)) →
  (∀ d, fs_node m (cur ++ [a; b]) ≠ Some (File d)) →
  ∃ m', mkdir_p m cur [a; b] = Some m' ∧
        walk m' cur [a; b] = Some (cur ++ [a; b]) ∧
        (∀ q, q ≠ cur ++ [a] → q ≠ cur ++ [a; b] → m' !! q = m !! q).
Proof.
  intros Ha Hb Hfa Hfb. cbn [mkdir_p walk]. rewrite Ha, Hb.
  replace ((cur ++ [a]) ++ [b]) with (cur ++ [a; b]) by by rewrite <- app_assoc.
  rewrite !fs_node_snoc in *.
  assert (∀ m0, fs_node m0 (cur ++ [a; b]) = m0 !! (cur ++ [a; b])) as Hnode.
  { intros m0.
    replace (cur ++ [a; b]) with ((cur ++ [a]) ++ [b]) by by rewrite <- app_assoc.
    apply fs_node_snoc. }
  rewrite Hnode in Hfb.
  destruct (m !! (cur ++ [a])) as [[|da]|] eqn:Ea; [| by destruct (Hfa da) |].
  - rewrite Hnode.
    destruct (m !! (cur ++ [a; b])) as [[|db]|] eqn:Eb; [| by destruct (Hfb db) |].
    + exists m. rewrite fs_node_snoc, Ea, Hnode, Eb. done.
    + eexists. split; [done|].
      rewrite fs_node_snoc, Hnode.
      rewrite lookup_insert_ne by (symmetry; apply snoc_ne_snoc2).
      rewrite Ea, lookup_insert_eq. split; [done|].
      intros q _ Hq. by rewrite lookup_insert_ne.
  - rewrite Hnode.
    rewrite (lookup_insert_ne m) by apply snoc_ne_snoc2.
    destruct (m !! (cur ++ [a; b])) as [[|db]|] eqn:Eb; [| by destruct (Hfb db) |].
    + eexists. split; [done|].
      rewrite fs_node_snoc, lookup_insert_eq, Hnode.
      rewrite lookup_insert_ne by apply snoc_ne_snoc2. rewrite Eb.
      split; [done|]. intros q Hq _. by rewrite lookup_insert_ne.
    + eexists. split; [done|].
      rewrite fs_node_snoc, Hnode.
      rewrite lookup_insert_ne by (symmetry; apply snoc_ne_snoc2).
      rewrite !lookup_insert_eq. split; [done|].
      intros q Hq1 Hq2. by rewrite !lookup_insert_ne.
Qed.

Lemma plain_name_inv name :
  plain_name name = true →
  split_slash name = [name] ∧ has_nul name = false ∧ classify name = CName name.
Proof.
  unfold plain_name. intros [Hchars Hcls]%andb_true_iff. repeat split.
  - apply split_slash_single. eapply all_chars_impl; [|exact Hchars].
    by intros c [? _]%andb_true_iff.
  - rewrite has_nul_all_chars. apply negb_false_iff.
    eapply all_chars_impl; [|exact Hchars]. by intros c [_ ?]%andb_true_iff.
  - destruct (classify name) as [| |n] eqn:Hn; [done..|].
    by apply classify_CName in Hn as ->.
Qed.

(** On such a disk both filesystem steps of an upload succeed, and the
    file lands in the feed's directory. *)
Lemma can_store_ok fs feed_id name data :
  plain_name name = true →
  String.length name ≤ NAME_MAX →
  can_store fs feed_id name = true →
  ∃ fs1 fs2,
    os_makedirs fs (upload_dir feed_id) = Some fs1 ∧
    open_wb_write fs1 (file_path feed_id name) data = Some fs2 ∧
    resolve_file fs1 (file_path feed_id name)
    = Some (feed_dir fs feed_id ++ [name]).
Proof.
  intros (Hsplit & Hnul & Hcls)%plain_name_inv Hlen.
  unfold can_store.
  intros [[[Hcwd Hup]%andb_true_iff Hid]%andb_true_iff Hfile]%andb_true_iff.
  rewrite <- !app_assoc in Hid, Hfile. simpl in Hid, Hfile.
  destruct (mkdir_p_two (nodes fs) (cwd fs) "uploads" (Uuid.str feed_id))
    as (m' & Hmk & Hwalk & Hsame).
  { reflexivity. }
  { apply uuid_str_classify. }
  { intros d Hd. by rewrite Hd in Hup. }
  { intros d Hd. by rewrite Hd in Hid. }
  assert (fs_node (nodes fs) (cwd fs) = Some Dir) as Hcwd'
    by (by destruct (fs_node (nodes fs) (cwd fs)) as [[|?]|]).
  assert (os_makedirs fs (upload_dir feed_id)
          = Some {| nodes := m'; cwd := cwd fs |}) as Hmake.
  { unfold os_makedirs. rewrite refused_upload_dir, start_dir_upload_dir.
    rewrite Hcwd', split_upload_dir, Hmk. done. }
  assert (resolve_file {| nodes := m'; cwd := cwd fs |} (file_path feed_id name)
          = Some (feed_dir fs feed_id ++ [name])) as Hres.
  { unfold resolve_file. rewrite refused_file_path_plain by done.
    rewrite start_dir_file_path. cbn [nodes cwd].
    rewrite (mkdir_p_dirs_le _ _ _ _ Hmk _ Hcwd').
    rewrite split_file_path, Hsplit.
    change (removelast ["uploads"; Uuid.str feed_id; name])
      with ["uploads"; Uuid.str feed_id].
    change (List.last ["uploads"; Uuid.str feed_id; name] "") with name.
    rewrite Hwalk, Hcls. cbn [mbind option_bind]. unfold feed_dir.
    rewrite fs_node_snoc, <- app_assoc. cbn [app].
    rewrite Hsame by (apply snoc3_ne_snoc || apply snoc3_ne_snoc2).
    replace (cwd fs ++ ["uploads"; Uuid.str feed_id; name])
      with ((cwd fs ++ ["uploads"; Uuid.str feed_id]) ++ [name]) in Hfile
      by by rewrite <- app_assoc.
    rewrite fs_node_snoc, <- app_assoc in Hfile. cbn [app] in Hfile.
    by destruct (nodes fs !! _) as [[|?]|]. }
  eexists _, _. split; [exact Hmake|]. split; [|exact Hres].
  unfold open_wb_write. rewrite Hres. done.
Qed.

Lemma string_app_assoc a b c : (a +:+ b) +:+ c = a +:+ (b +:+ c).
Proof.
  induction a as [|x a IH]; [done|].
  change (String x ((a +:+ b) +:+ c) = String x (a +:+ (b +:+ c))).
  by rewrite IH.
Qed.

Lemma parent_snoc (p : location) c : parent (p ++ [c]) = p.
Proof. unfold parent. apply removelast_last. Qed.

(** Where "../evil.png" resolves to once the upload directory exists. *)
Lemma resolve_evil_png fs feed_id p :
  resolve_file fs (file_path feed_id "../evil.png") = Some p →
  p = cwd fs ++ ["uploads"; "evil.png"].
Proof.
  unfold resolve_file. destruct (refused _); [done|].
  rewrite start_dir_file_path, split_file_path.
  change (split_slash "../evil.png") with [".."; "evil.png"].
  change (removelast ["uploads"; Uuid.str feed_id; ".."; "evil.png"])
    with ["uploads"; Uuid.str feed_id; ".."].
  change (List.last ["uploads"; Uuid.str feed_id; ".."; "evil.png"] "")
    with "evil.png".
  change (classify "evil.png") with (CName "evil.png").
  cbv iota. cbn [walk].
  change (classify "uploads") with (CName "uploads").
  change (classify "..") with CUp.
  rewrite uuid_str_classify. cbv iota.
  destruct (fs_node (nodes fs) (cwd fs)) as [[|?]|]; [|done..].
  destruct (fs_node (nodes fs) (cwd fs ++ ["uploads"])) as [[|?]|]; [|done..].
  destruct (fs_node (nodes fs) ((cwd fs ++ ["uploads"]) ++ [Uuid.str feed_id]))
    as [[|?]|]; [|done..].
  rewrite parent_snoc. cbn [mbind option_bind].
  rewrite <- app_assoc. cbn [app].
  destruct (fs_node (nodes fs) _) as [[|?]|]; [done|by intros [= <-]..].
Qed.

Lemma uuid_str_not_evil feed_id : Uuid.str feed_id ≠ "evil.png".
Proof.
  intros H. pose proof (uuid_str_chars feed_id) as Hc.
  rewrite H in Hc. discriminate Hc.
Qed.

(* ===================================================================== *)
(** ** The properties of the specification *)
(* ===================================================================== *)

(** C1. Uploading to a feed identifier that names no Feed answers 404
    "Feed not found" and leaves the whole world as it was: no directory
    is made, no file is written, no Image row is inserted. *)
Theorem upload_image_unknown_feed feed_id file env w :
  feed_id ∉ feed_ids w →
  upload_image feed_id file env w
  = (inl (HTTPException 404 "Feed not found"), w)
  ∧ http_status (HTTPException 404 "Feed not found") = 404%Z
  ∧ snd (handle (PostImages feed_id file) env w) = w.
Proof.
  intros Hno. apply select_feed_None in Hno.
  pose proof (upload_image_not_found feed_id file env w Hno) as Hup.
  repeat split; [done|].
  unfold handle, mbind, M_bind, bind. by rewrite Hup.
Qed.

Lemma upload_image_unknown_feed_witness :
  upload_image Example.feed_b Example.cat_png Example.env_image_a Example.w1
  = (inl (HTTPException 404 "Feed not found"), Example.w1)
  ∧ http_status (HTTPException 404 "Feed not found") = 404%Z
  ∧ snd (handle (PostImages Example.feed_b Example.cat_png)
                Example.env_image_a Example.w1) = Example.w1.
Proof.
  apply upload_image_unknown_feed. vm_compute.
  intros H. apply list_elem_of_singleton in H. discriminate H.
Defined.



(** C3. Retrieval answers with the stored Feed that has the identifier,
    field by field: its identifier, which is the one asked for, its name,
    its description and its creation time; and it fails, with 404 "Feed
    not found", exactly when no Feed has the identifier.  In a reachable
    world identifiers are unique, so every stored Feed is the one its
    identifier retrieves. *)
Theorem get_feed_found_or_404 feed_id w :
  (feed_id ∈ feed_ids w →
   ∃ f, f ∈ feeds w ∧ Feed.id f = feed_id ∧
        get_feed feed_id w
        = (inr (FeedResponse.mk feed_id (Feed.name f) (Feed.description f)
                                (Feed.created_at f)), w)) ∧
  (feed_id ∉ feed_ids w ↔
   get_feed feed_id w = (inl (HTTPException 404 "Feed not found"), w)) ∧
  (∀ e, fst (get_feed feed_id w) = inl e →
        http_status e = 404%Z ∧ feed_id ∉ feed_ids w) ∧
  (∀ r, fst (get_feed feed_id w) = inr r →
        FeedResponse.id r = feed_id ∧
        Feed.mk (FeedResponse.id r) (FeedResponse.name r)
                (FeedResponse.description r) (FeedResponse.created_at r)
        ∈ feeds w) ∧
  (reachable w →
   ∀ f, f ∈ feeds w → Feed.id f = feed_id →
        get_feed feed_id w
        = (inr (FeedResponse.mk (Feed.id f) (Feed.name f) (Feed.description f)
                                (Feed.created_at f)), w)).
Proof.
  split; [|split; [|split; [|split]]].
  5:{ intros Hreach f Hin <-. rewrite get_feed_eq.
      by rewrite select_feed_NoDup by by try apply reachable_feed_ids_NoDup. }
  all: rewrite get_feed_eq; unfold feed_ids;
    destruct (select_feed feed_id (feeds w)) as [f|] eqn:Hf.
  - pose proof (select_feed_Some _ _ _ Hf) as [Hin Hid].
    intros _. exists f. by subst feed_id.
  - by apply select_feed_None in Hf.
  - assert (feed_id ∈ Feed.id <$> feeds w) as Hex
      by (apply select_feed_is_Some; eauto).
    split; [by intros []|done].
  - by apply select_feed_None in Hf.
  - done.
  - apply select_feed_None in Hf. simpl. by intros e [= <-].
  - pose proof (select_feed_Some _ _ _ Hf) as [Hin Hid].
    intros r [= <-]. split; [done|]. by destruct f.
  - done.
Qed.

Lemma get_feed_found_or_404_witness :
  get_feed Example.feed_a Example.w1
  = (inr (FeedResponse.mk Example.feed_a "Vacation" None 1700000000000250%Z),
     Example.w1) ∧
  get_feed Example.feed_b Example.w1
  = (inl (HTTPException 404 "Feed not found"), Example.w1).
Proof.
  split.
  - apply (proj2 (proj2 (proj2 (proj2
             (get_feed_found_or_404 Example.feed_a Example.w1))))
             reachable_w1
             (Feed.mk Example.feed_a "Vacation" None 1700000000000250%Z)).
    + vm_compute. apply list_elem_of_singleton. reflexivity.
    + reflexivity.
  - apply (proj1 (proj1 (proj2 (get_feed_found_or_404 Example.feed_b
                                                      Example.w1)))).
    vm_compute. intros H. apply list_elem_of_singleton in H. discriminate H.
Defined.

(** C4. Listing the images of a feed identifier that names no Feed
    answers with the empty list, not with an error; the handler never
    looks at table [feeds], and in no world at all does it fail. *)
Theorem list_images_unknown_feed feed_id w :
  reachable w →
  feed_id ∉ feed_ids w →
  list_images feed_id w = (inr [], w) ∧
  (∀ w0 : World, ∃ l, list_images feed_id w0 = (inr l, w0)).
Proof.
  intros Hreach Hno. split; [|intros w0; eexists; apply list_images_eq].
  rewrite list_images_eq.
  destruct (select_images feed_id (images w)) as [|img l] eqn:Hsel; [done|].
  exfalso. assert (img ∈ select_images feed_id (images w)) as Himg
    by (rewrite Hsel; apply list_elem_of_here).
  apply select_images_elem in Himg as [Himg <-].
  by apply Hno, (reachable_images_owned w Hreach).
Qed.

Lemma list_images_unknown_feed_witness :
  list_images Example.feed_b Example.w2 = (inr [], Example.w2) ∧
  (∀ w0 : World, ∃ l, list_images Example.feed_b w0 = (inr l, w0)).
Proof.
  apply list_images_unknown_feed.
  - apply reachable_w2.
  - vm_compute. intros H. apply list_elem_of_singleton in H. discriminate H.
Defined.



(** C6. Creating a feed with name "Vacation" and no description: when
    [uuid4] draws an identifier no Feed has yet, the answer is the record
    with that identifier, the name "Vacation", a null description and the
    insertion time, and the row is persisted; and whatever record a
    creation answers with has an identifier that no earlier Feed has and a
    timestamp at or after the request time. *)
Theorem create_feed_vacation body env w :
  body !! "name" = Some (JString "Vacation") →
  body !! "description" = None →
  (uuid4 env ∉ feed_ids w →
   ∃ w', post_feeds body env w
         = (inr (FeedResponse.mk (uuid4 env) "Vacation" None (utcnow env)), w')
         ∧ feeds w' = feeds w ++ [Feed.mk (uuid4 env) "Vacation" None (utcnow env)]) ∧
  (∀ r w', post_feeds body env w = (inr r, w') →
     FeedResponse.name r = "Vacation" ∧
     FeedResponse.description r = None ∧
     FeedResponse.id r = uuid4 env ∧
     (FeedResponse.id r ∉ feed_ids w) ∧
     (request_time env ≤ FeedResponse.created_at r)%Z).
Proof.
  intros Hname Hdesc. rewrite post_feeds_eq. unfold FeedCreate.validate.
  rewrite Hname, Hdesc, create_feed_eq.
  change (has_nul _ || text_has_nul _) with false. cbv iota.
  destruct (decide (uuid4 env ∈ feed_ids w)) as [Hdup|Hfresh].
  - split; [done|]. by intros r w' [=].
  - split.
    + intros _. eexists. split; reflexivity.
    + intros r w' [= <- <-]. simpl.
      repeat split; [done|apply request_time_le_utcnow].
Qed.

Lemma create_feed_vacation_witness :
  ∃ w', post_feeds Example.vacation Example.env_feed (initial Example.disk0)
        = (inr (FeedResponse.mk Example.feed_a "Vacation" None
                                1700000000000250%Z), w')
        ∧ feeds w' = [Feed.mk Example.feed_a "Vacation" None 1700000000000250%Z].
Proof.
  apply (create_feed_vacation Example.vacation Example.env_feed
                              (initial Example.disk0)).
  - vm_compute. reflexivity.
  - vm_compute. reflexivity.
  - vm_compute. intros H. inversion H.
Defined.

(** C7. Retrieving a feed by the identifier its creation returned, right
    after the creation, answers with the very record the creation
    returned: the same name and the same description as in the request. *)
Theorem create_then_get_feed feed env w r w' :
  create_feed feed env w = (inr r, w') →
  get_feed (FeedResponse.id r) w' = (inr r, w') ∧
  FeedResponse.name r = FeedCreate.name feed ∧
  FeedResponse.description r = FeedCreate.description feed.
Proof.
  rewrite create_feed_eq. destruct (has_nul _ || _); [done|].
  destruct (decide (uuid4 env ∈ feed_ids w)) as [Hdup|Hfresh]; [done|].
  intros [= <- <-]. split; [|done].
  rewrite get_feed_eq. simpl.
  rewrite select_feed_app_r by by apply select_feed_None.
  unfold select_feed. simpl. by rewrite N.eqb_refl.
Qed.

Lemma create_then_get_feed_witness :
  get_feed Example.feed_a Example.w1
  = (inr (FeedResponse.mk Example.feed_a "Vacation" None 1700000000000250%Z),
     Example.w1).
Proof.
  apply (create_then_get_feed
           (FeedCreate.mk "Vacation" None) Example.env_feed
           (initial Example.disk0)
           (FeedResponse.mk Example.feed_a "Vacation" None 1700000000000250%Z)
           Example.w1).
  vm_compute. reflexivity.
Defined.






(** C10. The path of a successful upload, both the one opened for
    writing and the one recorded in the Image row, is "uploads/", the
    text of the feed identifier, "/", and the filename as the client sent
    it.  With the filename "../evil.png" every successful upload changes
    the disk, once the upload directory is made, at one location only:
    uploads/evil.png under the working directory, which is not inside the
    feed's directory uploads/<feed_id>; and such an upload does succeed. *)
Theorem upload_path_verbatim :
  (∀ feed_id file env w reply w',
     upload_image feed_id file env w = (inr reply, w') →
     ∃ img fs1 p,
       images w' = images w ++ [img] ∧
       Image.path img = "uploads/" +:+ Uuid.str feed_id +:+ "/" +:+ filename file ∧
       Image.filename img = filename file ∧
       os_makedirs (disk w) ("uploads/" +:+ Uuid.str feed_id) = Some fs1 ∧
       resolve_file fs1 (Image.path img) = Some p ∧
       disk w' = {| nodes := <[p := File (content file)]> (nodes fs1);
                    cwd := cwd (disk w) |} ∧
       read_file (disk w') (Image.path img) = Some (content file)) ∧
  (∀ feed_id data env w reply w',
     upload_image feed_id {| filename := "../evil.png"; content := data |} env w
     = (inr reply, w') →
     ∃ fs1,
       os_makedirs (disk w) ("uploads/" +:+ Uuid.str feed_id) = Some fs1 ∧
       nodes (disk w')
       = <[cwd (disk w) ++ ["uploads"; "evil.png"] := File data]> (nodes fs1) ∧
       ¬ feed_dir (disk w) feed_id
           `prefix_of` cwd (disk w) ++ ["uploads"; "evil.png"]) ∧
  fst (upload_image Example.feed_a Example.evil_png Example.env_image_a
                    Example.w1)
  = inr {| message := "Image uploaded successfully";
           image_id := "9b2f6c1e-5d3a-4f0e-8c7b-6a5948372615" |}.
Proof.
  assert (∀ feed_id file env w reply w',
     upload_image feed_id file env w = (inr reply, w') →
     ∃ fs1 p,
       os_makedirs (disk w) (upload_dir feed_id) = Some fs1 ∧
       resolve_file fs1 (file_path feed_id (filename file)) = Some p ∧
       w' = {| feeds := feeds w;
               images := images w ++ [new_image feed_id file env];
               disk := {| nodes := <[p := File (content file)]> (nodes fs1);
                          cwd := cwd (disk w) |} |} ∧
       read_file (disk w') (file_path feed_id (filename file))
       = Some (content file)) as Hstep.
  { intros feed_id file env w reply w'
           (fs1 & fs2 & _ & Hmk & Hwr & _ & _ & ->)%upload_image_ok.
    pose proof (open_wb_write_inv _ _ _ _ Hwr) as (p & Hres & ->).
    pose proof (os_makedirs_inv _ _ _ Hmk) as (Hcwd & _).
    exists fs1, p. rewrite <- Hcwd. repeat split; [done..|].
    cbn [disk]. by apply (read_after_write fs1). }
  split; [|split].
  - intros feed_id file env w reply w' Hup.
    destruct (Hstep _ _ _ _ _ _ Hup) as (fs1 & p & Hmk & Hres & -> & Hread).
    exists (new_image feed_id file env), fs1, p.
    cbn [images disk new_image Image.path Image.filename].
    assert ("uploads/" +:+ Uuid.str feed_id +:+ "/" +:+ filename file
            = file_path feed_id (filename file)) as ->
      by (unfold file_path, upload_dir; by rewrite string_app_assoc).
    done.
  - intros feed_id data env w reply w' Hup.
    destruct (Hstep _ _ _ _ _ _ Hup) as (fs1 & p & Hmk & Hres & -> & _).
    pose proof (os_makedirs_inv _ _ _ Hmk) as (Hcwd & _).
    apply resolve_evil_png in Hres. rewrite Hcwd in Hres. subst p.
    exists fs1. cbn [disk nodes content]. split; [done|]. split; [done|].
    unfold feed_dir. intros [k Hk].
    rewrite <- app_assoc in Hk. apply app_inv_head in Hk.
    apply (f_equal (λ l, nth 1 l "")) in Hk. cbn [nth app] in Hk.
    exact (uuid_str_not_evil feed_id (eq_sym Hk)).
  - vm_compute. reflexivity.
Qed.

Lemma upload_path_verbatim_witness :
  ∃ fs1,
    os_makedirs (disk Example.w1) ("uploads/" +:+ Uuid.str Example.feed_a)
    = Some fs1 ∧
    nodes (disk (snd (upload_image Example.feed_a Example.evil_png
                                   Example.env_image_a Example.w1)))
    = <[cwd (disk Example.w1) ++ ["uploads"; "evil.png"] := File [x00]]>
        (nodes fs1) ∧
    ¬ feed_dir (disk Example.w1) Example.feed_a
        `prefix_of` cwd (disk Example.w1) ++ ["uploads"; "evil.png"].
Proof.
  apply (proj1 (proj2 upload_path_verbatim)
           Example.feed_a [x00] Example.env_image_a Example.w1
           {| message := "Image uploaded successfully";
              image_id := "9b2f6c1e-5d3a-4f0e-8c7b-6a5948372615" |}
           (snd (upload_image Example.feed_a Example.evil_png
                              Example.env_image_a Example.w1))).
  vm_compute. reflexivity.
Defined.

(* ===================================================================== *)
(** ** Further lemmas on the handlers *)
(* ===================================================================== *)

(** An outcome and the world after it, from the outcome alone. *)
Lemma pair_of_fst {A B} (x : A * B) (a : A) : fst x = a → x = (a, snd x).
Proof. destruct x. simpl. by intros ->. Qed.

Lemma upload_image_of_fst feed_id file env w x :
  fst (upload_image feed_id file env w) = x →
  upload_image feed_id file env w
  = (x, snd (handle (PostImages feed_id file) env w)).
Proof.
  unfold handle, mbind, M_bind, bind.
  destruct (upload_image feed_id file env w) as [[e|r] w']; simpl; by intros ->.
Qed.

Lemma post_feeds_of_fst body env w x :
  fst (post_feeds body env w) = x →
  post_feeds body env w = (x, snd (handle (PostFeeds body) env w)).
Proof.
  unfold handle, mbind, M_bind, bind.
  destruct (post_feeds body env w) as [[e|r] w']; simpl; by intros ->.
Qed.

Lemma list_images_listing feed_id w :
  list_images feed_id w = (inr (listing feed_id w), w).
Proof. reflexivity. Qed.

Lemma mkdir_p_only_new_dirs : ∀ cs m cur m',
  mkdir_p m cur cs = Some m' → only_new_dirs m m'.
Proof.
  induction cs as [|c cs IH]; intros m cur m'; simpl.
  - intros [= ->] q. by left.
  - destruct (classify c) as [| |n]; [apply IH..|].
    rewrite fs_node_snoc.
    destruct (m !! (cur ++ [n])) as [[|?]|] eqn:Hn; [apply IH|done|].
    intros H q. destruct (IH _ _ _ H q) as [Hq|[Hq1 Hq2]].
    + destruct (decide (cur ++ [n] = q)) as [<-|Hne].
      * right. by rewrite Hq, lookup_insert_eq.
      * left. by rewrite Hq, lookup_insert_ne.
    + destruct (decide (cur ++ [n] = q)) as [<-|Hne].
      * by rewrite lookup_insert_eq in Hq1.
      * right. by rewrite lookup_insert_ne in Hq1.
Qed.

Lemma os_makedirs_only_new_dirs fs name fs1 :
  os_makedirs fs name = Some fs1 →
  cwd fs1 = cwd fs ∧ only_new_dirs (nodes fs) (nodes fs1).
Proof.
  unfold os_makedirs. destruct (refused name); [done|].
  destruct (fs_node (nodes fs) _) as [[|?]|]; [|done..].
  destruct (mkdir_p _ _ _) as [m|] eqn:Hm; [|done]. simpl. intros [= <-].
  split; [done|]. by eapply mkdir_p_only_new_dirs.
Qed.

(** After [makedirs] the upload directory of the feed is a directory. *)
Lemma os_makedirs_feed_dir fs feed_id fs1 :
  os_makedirs fs (upload_dir feed_id) = Some fs1 →
  fs_node (nodes fs1) (cwd fs ++ ["uploads"]) = Some Dir ∧
  fs_node (nodes fs1) (feed_dir fs feed_id) = Some Dir.
Proof.
  intros (_ & _ & _ & [d Hw])%os_makedirs_inv.
  rewrite start_dir_upload_dir, split_upload_dir in Hw. cbn [walk] in Hw.
  change (classify "uploads") with (CName "uploads") in Hw.
  rewrite uuid_str_classify in Hw. cbv iota in Hw. unfold feed_dir.
  replace (cwd fs ++ ["uploads"; Uuid.str feed_id])
    with ((cwd fs ++ ["uploads"]) ++ [Uuid.str feed_id])
    by by rewrite <- app_assoc.
  destruct (fs_node (nodes fs1) (cwd fs ++ ["uploads"])) as [[|?]|]; [|done..].
  by destruct (fs_node (nodes fs1) ((cwd fs ++ ["uploads"]) ++ [Uuid.str feed_id]))
    as [[|?]|].
Qed.

(** Where a plain filename resolves to once the upload directory exists. *)
Lemma resolve_plain_name fs feed_id name p :
  plain_name name = true →
  resolve_file fs (file_path feed_id name) = Some p →
  p = feed_dir fs feed_id ++ [name].
Proof.
  intros (Hsplit & Hnul & Hcls)%plain_name_inv. unfold resolve_file.
  destruct (refused _); [done|].
  rewrite start_dir_file_path, split_file_path, Hsplit.
  change (removelast ["uploads"; Uuid.str feed_id; name])
    with ["uploads"; Uuid.str feed_id].
  change (List.last ["uploads"; Uuid.str feed_id; name] "") with name.
  rewrite Hcls. cbn [walk].
  change (classify "uploads") with (CName "uploads").
  rewrite uuid_str_classify. cbv iota. unfold feed_dir.
  destruct (fs_node (nodes fs) (cwd fs)) as [[|?]|]; [|done..].
  destruct (fs_node (nodes fs) (cwd fs ++ ["uploads"])) as [[|?]|]; [|done..].
  destruct (fs_node (nodes fs) ((cwd fs ++ ["uploads"]) ++ [Uuid.str feed_id]))
    as [[|?]|]; [|done..].
  cbn [mbind option_bind]. rewrite <- !app_assoc. cbn [app].
  destruct (fs_node (nodes fs) _) as [[|?]|]; [done|by intros [= <-]..].
Qed.

Lemma only_new_dirs_file m m' q data :
  only_new_dirs m m' → m !! q = Some (File data) → m' !! q = Some (File data).
Proof. intros H Hq. destruct (H q) as [->|[Hn _]]; [done|congruence]. Qed.

Lemma only_new_dirs_dirs_le m m' : only_new_dirs m m' → dirs_le m m'.
Proof.
  intros H [|c q]; [done|]. simpl. intros Hq.
  destruct (H (c :: q)) as [->|[Hn _]]; [done|congruence].
Qed.

Lemma read_file_inv fs name data :
  read_file fs name = Some data →
  ∃ p, resolve_file fs name = Some p ∧ nodes fs !! p = Some (File data).
Proof.
  unfold read_file. destruct (resolve_file fs name) as [p|]; [|done]. simpl.
  destruct (nodes fs !! p) as [[|d]|] eqn:Hp; [done| |done].
  intros [= ->]. eauto.
Qed.

Lemma feed_dir_inj fs a b :
  Uuid.valid a → Uuid.valid b → feed_dir fs a = feed_dir fs b → a = b.
Proof.
  unfold feed_dir. intros Ha Hb H. apply app_inv_head in H.
  apply (f_equal (λ l, nth 1 l "")) in H. cbn [nth] in H.
  by apply uuid_str_inj.
Qed.

Lemma feed_file_ne fs a b n n' :
  Uuid.valid a → Uuid.valid b → a ≠ b →
  feed_dir fs a ++ [n] ≠ feed_dir fs b ++ [n'].
Proof.
  intros Ha Hb Hne H. apply app_inj_tail in H as [H _].
  by apply Hne, (feed_dir_inj fs).
Qed.

(** The converse of [resolve_plain_name]. *)
Lemma resolve_plain_name_ok fs feed_id name :
  plain_name name = true →
  String.length name ≤ NAME_MAX →
  fs_node (nodes fs) (cwd fs) = Some Dir →
  fs_node (nodes fs) (cwd fs ++ ["uploads"]) = Some Dir →
  fs_node (nodes fs) (feed_dir fs feed_id) = Some Dir →
  fs_node (nodes fs) (feed_dir fs feed_id ++ [name]) ≠ Some Dir →
  resolve_file fs (file_path feed_id name) = Some (feed_dir fs feed_id ++ [name]).
Proof.
  intros (Hsplit & Hnul & Hcls)%plain_name_inv Hlen Hcwd Hup Hdir Hfile.
  unfold resolve_file. rewrite refused_file_path_plain by done.
  rewrite start_dir_file_path, split_file_path, Hsplit.
  change (removelast ["uploads"; Uuid.str feed_id; name])
    with ["uploads"; Uuid.str feed_id].
  change (List.last ["uploads"; Uuid.str feed_id; name] "") with name.
  rewrite Hcls, Hcwd. cbn [walk].
  change (classify "uploads") with (CName "uploads").
  rewrite uuid_str_classify, Hup. cbv iota. unfold feed_dir in *.
  replace ((cwd fs ++ ["uploads"]) ++ [Uuid.str feed_id])
    with (cwd fs ++ ["uploads"; Uuid.str feed_id]) by by rewrite <- app_assoc.
  rewrite Hdir. cbn [mbind option_bind].
  destruct (fs_node (nodes fs)
              ((cwd fs ++ ["uploads"; Uuid.str feed_id]) ++ [name]))
    as [[|?]|]; [by destruct Hfile|done..].
Qed.

Lemma resolve_sibling_name fs feed_a feed_b name p :
  plain_name name = true →
  resolve_file fs (file_path feed_b (sibling_name feed_a name)) = Some p →
  p = feed_dir fs feed_a ++ [name] ∧
  fs_node (nodes fs) (cwd fs) = Some Dir ∧
  fs_node (nodes fs) (cwd fs ++ ["uploads"]) = Some Dir ∧
  fs_node (nodes fs) (feed_dir fs feed_a) = Some Dir ∧
  String.length name ≤ NAME_MAX.
Proof.
  intros (Hsplit & Hnul & Hcls)%plain_name_inv Hres.
  assert (String.length name ≤ NAME_MAX) as Hlen.
  { pose proof (resolve_file_accepts _ _ _ Hres) as Hacc.
    apply refused_file_path in Hacc as (_ & _ & Hall).
    revert Hall. unfold sibling_name.
    change ("../" +:+ Uuid.str feed_a +:+ "/" +:+ name)
      with (".." +:+ "/" +:+ (Uuid.str feed_a +:+ "/" +:+ name)).
    rewrite split_slash_join by reflexivity.
    rewrite split_slash_join by apply uuid_str_no_slash. rewrite Hsplit.
    rewrite !Forall_cons. by intros (_ & _ & H & _). }
  revert Hres. unfold resolve_file.
  destruct (refused _); [done|].
  rewrite start_dir_file_path, split_file_path.
  unfold sibling_name.
  change ("../" +:+ Uuid.str feed_a +:+ "/" +:+ name)
    with (".." +:+ "/" +:+ (Uuid.str feed_a +:+ "/" +:+ name)).
  rewrite split_slash_join by reflexivity.
  rewrite split_slash_join by apply uuid_str_no_slash. rewrite Hsplit.
  change (removelast ["uploads"; Uuid.str feed_b; ".."; Uuid.str feed_a; name])
    with ["uploads"; Uuid.str feed_b; ".."; Uuid.str feed_a].
  change (List.last ["uploads"; Uuid.str feed_b; ".."; Uuid.str feed_a; name] "")
    with name.
  rewrite Hcls. cbn [walk].
  change (classify "uploads") with (CName "uploads").
  change (classify "..") with CUp.
  rewrite !uuid_str_classify. cbv iota. unfold feed_dir.
  destruct (fs_node (nodes fs) (cwd fs)) as [[|?]|]; [|done..].
  destruct (fs_node (nodes fs) (cwd fs ++ ["uploads"])) as [[|?]|]; [|done..].
  destruct (fs_node (nodes fs) ((cwd fs ++ ["uploads"]) ++ [Uuid.str feed_b]))
    as [[|?]|]; [|done..].
  rewrite parent_snoc.
  replace ((cwd fs ++ ["uploads"]) ++ [Uuid.str feed_a])
    with (cwd fs ++ ["uploads"; Uuid.str feed_a]) by by rewrite <- app_assoc.
  destruct (fs_node (nodes fs) (cwd fs ++ ["uploads"; Uuid.str feed_a]))
    as [[|?]|]; [|done..].
  cbn [mbind option_bind].
  destruct (fs_node (nodes fs) _) as [[|?]|]; [done|by intros [= <-]..].
Qed.

(* ===================================================================== *)
(** ** Further properties of [upload_image] *)
(* ===================================================================== *)

(** X1. An upload that fails inserts no row in either table; it fails
    with 404 exactly when the feed does not exist, and then nothing at all
    has changed; every other failure is a 500. *)
Theorem upload_image_failure feed_id file env w e w' :
  upload_image feed_id file env w = (inl e, w') →
  feeds w' = feeds w ∧ images w' = images w ∧
  (http_status e = 404%Z ∨ http_status e = 500%Z) ∧
  (http_status e = 404%Z ↔ feed_id ∉ feed_ids w) ∧
  (http_status e = 404%Z → w' = w).
Proof.
  rewrite upload_image_eq. unfold feed_ids.
  destruct (select_feed feed_id (feeds w)) as [f|] eqn:Hf.
  - assert (feed_id ∈ Feed.id <$> feeds w) as Hin
      by (apply select_feed_is_Some; eauto).
    destruct (os_makedirs _ _) as [fs1|].
    2:{ intros [= <- <-]. simpl. repeat split; auto; done. }
    destruct (open_wb_write _ _ _) as [fs2|].
    2:{ intros [= <- <-]. simpl. repeat split; auto; done. }
    destruct (decide _); [|done].
    intros [= <- <-]. simpl. repeat split; auto; done.
  - apply select_feed_None in Hf. intros [= <- <-]. simpl.
    repeat split; auto.
Qed.

Lemma upload_image_failure_witness :
  let w' := snd (upload_image Example.feed_a
                   {| filename := "2024/cat.png"; content := [x89] |}
                   Example.env_image_a Example.w1) in
  feeds w' = feeds Example.w1 ∧ images w' = images Example.w1 ∧
  (http_status IOFailure = 404%Z ∨ http_status IOFailure = 500%Z) ∧
  (http_status IOFailure = 404%Z ↔ Example.feed_a ∉ feed_ids Example.w1) ∧
  (http_status IOFailure = 404%Z → w' = Example.w1).
Proof.
  apply (upload_image_failure Example.feed_a
           {| filename := "2024/cat.png"; content := [x89] |}
           Example.env_image_a Example.w1 IOFailure).
  apply pair_of_fst. vm_compute. reflexivity.
Defined.



(** X3. When [makedirs] or [open] fails, no file has been written or
    changed: the disk after the request is the disk before it, except
    for directories [makedirs] may have added, and the tables are
    untouched. *)
Theorem upload_image_io_failure feed_id file env w w' :
  upload_image feed_id file env w = (inl IOFailure, w') →
  feeds w' = feeds w ∧ images w' = images w ∧
  cwd (disk w') = cwd (disk w) ∧
  only_new_dirs (nodes (disk w)) (nodes (disk w')).
Proof.
  rewrite upload_image_eq.
  destruct (select_feed feed_id (feeds w)); [|done].
  destruct (os_makedirs _ _) as [fs1|] eqn:Hmk.
  2:{ intros [= <-]. repeat split; [done..|]. intros q. by left. }
  destruct (open_wb_write _ _ _) as [fs2|]; [by destruct (decide _)|].
  intros [= <-]. cbn [set_disk feeds images disk].
  by destruct (os_makedirs_only_new_dirs _ _ _ Hmk).
Qed.

Lemma upload_image_io_failure_witness :
  let w' := snd (upload_image Example.feed_a
                   {| filename := "2024/cat.png"; content := [x89] |}
                   Example.env_image_a Example.w1) in
  feeds w' = feeds Example.w1 ∧ images w' = images Example.w1 ∧
  cwd (disk w') = cwd (disk Example.w1) ∧
  only_new_dirs (nodes (disk Example.w1)) (nodes (disk w')).
Proof.
  apply (upload_image_io_failure Example.feed_a
           {| filename := "2024/cat.png"; content := [x89] |}
           Example.env_image_a Example.w1).
  apply pair_of_fst. vm_compute. reflexivity.
Defined.

(** X4. [os.makedirs(.., exist_ok=True)] can be repeated: after a call
    that succeeded, the same call succeeds again and changes nothing. *)
Theorem os_makedirs_idempotent fs name fs1 :
  os_makedirs fs name = Some fs1 → os_makedirs fs1 name = Some fs1.
Proof.
  intros H. apply (os_makedirs_again fs name fs1); [done..|apply dirs_le_refl].
Qed.

Lemma os_makedirs_idempotent_witness :
  os_makedirs More.disk1 (upload_dir Example.feed_a) = Some More.disk1.
Proof.
  apply (os_makedirs_idempotent Example.disk0).
  vm_compute. reflexivity.
Defined.

(** X5. After a successful upload the directories uploads and
    uploads/<feed_id> exist under the working directory, whatever the
    filename was. *)
Theorem upload_image_makes_feed_dir feed_id file env w reply w' :
  upload_image feed_id file env w = (inr reply, w') →
  cwd (disk w') = cwd (disk w) ∧
  fs_node (nodes (disk w')) (cwd (disk w) ++ ["uploads"]) = Some Dir ∧
  fs_node (nodes (disk w')) (feed_dir (disk w) feed_id) = Some Dir.
Proof.
  intros (fs1 & fs2 & _ & Hmk & Hwr & _ & _ & ->)%upload_image_ok.
  pose proof (open_wb_write_inv _ _ _ _ Hwr) as (p & Hres & ->).
  pose proof (os_makedirs_inv _ _ _ Hmk) as (Hcwd & _).
  destruct (os_makedirs_feed_dir _ _ _ Hmk) as [Hup Hdir].
  pose proof (dirs_le_insert_file (nodes fs1) p (content file)
                (resolve_file_not_dir _ _ _ Hres)) as Hle.
  cbn [disk nodes cwd]. split; [done|]. split; by apply Hle.
Qed.

Lemma upload_image_makes_feed_dir_witness :
  cwd (disk Example.w2) = cwd (disk Example.w1) ∧
  fs_node (nodes (disk Example.w2)) (cwd (disk Example.w1) ++ ["uploads"])
  = Some Dir ∧
  fs_node (nodes (disk Example.w2)) (feed_dir (disk Example.w1) Example.feed_a)
  = Some Dir.
Proof.
  apply (upload_image_makes_feed_dir Example.feed_a Example.cat_png
           Example.env_image_a Example.w1
           {| message := "Image uploaded successfully";
              image_id := "9b2f6c1e-5d3a-4f0e-8c7b-6a5948372615" |}).
  apply upload_image_of_fst. vm_compute. reflexivity.
Defined.

(** X6. A filename that is one ordinary path component is stored inside
    the feed's own directory, as uploads/<feed_id>/<filename>; apart from
    that file, the upload leaves every file on the disk as it was and at
    most adds directories. *)
Theorem upload_image_plain_name feed_id file env w reply w' :
  plain_name (filename file) = true →
  upload_image feed_id file env w = (inr reply, w') →
  nodes (disk w') !! (feed_dir (disk w) feed_id ++ [filename file])
  = Some (File (content file)) ∧
  feed_dir (disk w) feed_id
    `prefix_of` feed_dir (disk w) feed_id ++ [filename file] ∧
  (∀ q, q ≠ feed_dir (disk w) feed_id ++ [filename file] →
        nodes (disk w') !! q = nodes (disk w) !! q ∨
        (nodes (disk w) !! q = None ∧ nodes (disk w') !! q = Some Dir)).
Proof.
  intros Hplain (fs1 & fs2 & _ & Hmk & Hwr & _ & _ & ->)%upload_image_ok.
  pose proof (open_wb_write_inv _ _ _ _ Hwr) as (p & Hres & ->).
  destruct (os_makedirs_only_new_dirs _ _ _ Hmk) as [Hcwd Hnew].
  apply resolve_plain_name in Hres; [|done].
  unfold feed_dir in *. rewrite Hcwd in Hres. subst p. cbn [disk nodes].
  split; [apply lookup_insert_eq|]. split; [by eexists|].
  intros q Hq. rewrite lookup_insert_ne by done. apply Hnew.
Qed.

Lemma upload_image_plain_name_witness :
  nodes (disk Example.w2)
    !! (feed_dir (disk Example.w1) Example.feed_a ++ ["cat.png"])
  = Some (File [x89; x50; x4e; x47]) ∧
  feed_dir (disk Example.w1) Example.feed_a
    `prefix_of` feed_dir (disk Example.w1) Example.feed_a ++ ["cat.png"] ∧
  (∀ q, q ≠ feed_dir (disk Example.w1) Example.feed_a ++ ["cat.png"] →
        nodes (disk Example.w2) !! q = nodes (disk Example.w1) !! q ∨
        (nodes (disk Example.w1) !! q = None ∧
         nodes (disk Example.w2) !! q = Some Dir)).
Proof.
  apply (upload_image_plain_name Example.feed_a Example.cat_png
           Example.env_image_a Example.w1
           {| message := "Image uploaded successfully";
              image_id := "9b2f6c1e-5d3a-4f0e-8c7b-6a5948372615" |}).
  - vm_compute. reflexivity.
  - apply upload_image_of_fst. vm_compute. reflexivity.
Defined.

(** X7. Feeds do not disturb each other's files as long as filenames are
    ordinary: a file readable under a feed's path is still read, with the
    same bytes, after an upload of any ordinary filename to another
    feed. *)
Theorem upload_image_other_feed feed_a feed_b name data file env w reply w' :
  Uuid.valid feed_a → Uuid.valid feed_b → feed_a ≠ feed_b →
  plain_name name = true → plain_name (filename file) = true →
  read_file (disk w) (file_path feed_a name) = Some data →
  upload_image feed_b file env w = (inr reply, w') →
  read_file (disk w') (file_path feed_a name) = Some data.
Proof.
  intros Ha Hb Hne Hname Hfile (pa & Hresa & Hnode)%read_file_inv Hup.
  apply upload_image_ok in Hup as (fs1 & fs2 & _ & Hmk & Hwr & _ & _ & ->).
  pose proof (open_wb_write_inv _ _ _ _ Hwr) as (pb & Hresb & ->).
  destruct (os_makedirs_only_new_dirs _ _ _ Hmk) as [Hcwd Hnew].
  cbn [disk nodes] in *.
  pose proof (resolve_plain_name _ _ _ _ Hname Hresa) as ->.
  pose proof (resolve_plain_name _ _ _ _ Hfile Hresb) as Hpb.
  assert (<[pb := File (content file)]> (nodes fs1)
            !! (feed_dir (disk w) feed_a ++ [name]) = Some (File data)) as Hkept.
  { rewrite lookup_insert_ne.
    - by apply (only_new_dirs_file (nodes (disk w))).
    - rewrite Hpb. unfold feed_dir. rewrite Hcwd.
      by apply not_eq_sym, (feed_file_ne (disk w)). }
  set (fs2 := {| nodes := <[pb := File (content file)]> (nodes fs1);
                 cwd := cwd fs1 |}).
  assert (resolve_file fs2 (file_path feed_a name)
          = Some (feed_dir (disk w) feed_a ++ [name])) as Hres2.
  { apply (resolve_file_mono (disk w)); [exact Hcwd| | |exact Hresa].
    - cbn [fs2 nodes]. eapply dirs_le_trans; [by apply only_new_dirs_dirs_le|].
      by apply dirs_le_insert_file, (resolve_file_not_dir fs1 _ _ Hresb).
    - cbn [fs2 nodes]. rewrite fs_node_snoc, Hkept. done. }
  unfold read_file. rewrite Hres2. cbn [mbind option_bind fs2 nodes].
  by rewrite Hkept.
Qed.

Lemma upload_image_other_feed_witness :
  read_file (disk More.w4) (file_path Example.feed_a "cat.png")
  = Some [x89; x50; x4e; x47].
Proof.
  apply (upload_image_other_feed Example.feed_a Example.feed_b "cat.png"
           [x89; x50; x4e; x47] Example.cat_png' Example.env_image_b More.w3
           {| message := "Image uploaded successfully";
              image_id := "0f1e2d3c-4b5a-4978-8796-a5b4c3d2e1f0" |}).
  - vm_compute. reflexivity.
  - vm_compute. reflexivity.
  - vm_compute. discriminate.
  - vm_compute. reflexivity.
  - vm_compute. reflexivity.
  - vm_compute. reflexivity.
  - apply upload_image_of_fst. vm_compute. reflexivity.
Defined.

(** X8. The filename is not confined to the feed: an upload to one feed
    whose filename is "../<other feed>/<name>" writes the other feed's
    file uploads/<other feed>/<name>, and a read under the other feed's
    path returns the uploaded bytes. *)
Theorem upload_image_into_other_feed feed_a feed_b name data env w reply w' :
  plain_name name = true →
  upload_image feed_b
    {| filename := "../" +:+ Uuid.str feed_a +:+ "/" +:+ name; content := data |}
    env w = (inr reply, w') →
  nodes (disk w') !! (feed_dir (disk w) feed_a ++ [name]) = Some (File data) ∧
  read_file (disk w') (file_path feed_a name) = Some data ∧
  Image.feed_id <$> last (images w') = Some feed_b.
Proof.
  intros Hname (fs1 & fs2 & _ & Hmk & Hwr & _ & _ & ->)%upload_image_ok.
  cbn [filename content] in Hwr.
  pose proof (open_wb_write_inv _ _ _ _ Hwr) as (p & Hres & ->).
  pose proof (os_makedirs_inv _ _ _ Hmk) as (Hcwd & _).
  pose proof (resolve_file_not_dir _ _ _ Hres) as Hnotdir.
  apply (resolve_sibling_name fs1 feed_a feed_b name p Hname)
    in Hres as (-> & Hc & Hu & Hd & Hlen).
  assert (feed_dir fs1 feed_a = feed_dir (disk w) feed_a) as Hfd
    by (unfold feed_dir; by rewrite Hcwd).
  cbn [disk nodes images]. rewrite <- Hfd.
  split; [apply lookup_insert_eq|]. split.
  - unfold read_file.
    rewrite (resolve_after_write fs1 (file_path feed_a name) data
               (feed_dir fs1 feed_a ++ [name])).
    + cbn [mbind option_bind nodes]. by rewrite lookup_insert_eq.
    + by apply resolve_plain_name_ok.
  - by rewrite last_snoc.
Qed.

Lemma upload_image_into_other_feed_witness :
  let w' := snd (upload_image Example.feed_b
                   {| filename := "../" +:+ Uuid.str Example.feed_a +:+ "/" +:+ "cat.png";
                      content := [x00; x01] |}
                   Example.env_image_b More.w3) in
  nodes (disk w') !! (feed_dir (disk More.w3) Example.feed_a ++ ["cat.png"])
  = Some (File [x00; x01]) ∧
  read_file (disk w') (file_path Example.feed_a "cat.png") = Some [x00; x01] ∧
  Image.feed_id <$> last (images w') = Some Example.feed_b.
Proof.
  apply (upload_image_into_other_feed Example.feed_a Example.feed_b "cat.png"
           [x00; x01] Example.env_image_b More.w3
           {| message := "Image uploaded successfully";
              image_id := "0f1e2d3c-4b5a-4978-8796-a5b4c3d2e1f0" |}).
  - vm_compute. reflexivity.
  - apply pair_of_fst. vm_compute. reflexivity.
Defined.

(* ===================================================================== *)
(** ** Further lemmas on the tables *)
(* ===================================================================== *)

(** A request leaves [images] alone or appends the row of a successful
    upload, whose key is new and whose feed exists. *)
Lemma handle_images req env w :
  images (snd (handle req env w)) = images w ∨
  ∃ feed_id file reply,
    req = PostImages feed_id file ∧
    fst (handle req env w) = inr (RUpload reply) ∧
    images (snd (handle req env w)) = images w ++ [new_image feed_id file env] ∧
    (uuid4 env ∉ image_ids w) ∧
    feed_id ∈ feed_ids w.
Proof.
  destruct (handle_tables req env w)
    as [_ [Hi|(fid & file & reply & w' & -> & Hup & Hw' & Hi)]]; [by left|].
  right. exists fid, file, reply.
  pose proof Hup as (_ & _ & Hin & _ & _ & Hfresh & _)%upload_image_ok.
  rewrite Hw'. repeat split; [|done..].
  unfold handle, mbind, M_bind, bind. by rewrite Hup.
Qed.

Lemma later_images w w' : later w w' → ∃ new, images w' = images w ++ new.
Proof.
  induction 1 as [|w w' req env _ [new IH]]; [apply extends_refl|].
  destruct (handle_images req env w') as [->|(? & ? & ? & _ & _ & -> & _)].
  - by exists new.
  - eexists. by rewrite IH, <- app_assoc.
Qed.

Lemma reachable_image_ids_NoDup w : reachable w → NoDup (image_ids w).
Proof.
  induction 1 as [fs|w req env _ IH]; [constructor|].
  unfold image_ids in *.
  destruct (handle_images req env w)
    as [->|(fid & file & reply & _ & _ & -> & Hfresh & _)]; [done|].
  rewrite fmap_app. apply NoDup_app. split; [done|]. split.
  - intros i Hi Hrow. apply list_elem_of_singleton in Hrow as ->.
    by apply Hfresh.
  - apply NoDup_singleton.
Qed.


Lemma listing_app_images feed_id w l :
  List.map entry_of (select_images feed_id (images w ++ l))
  = listing feed_id w ++ List.map entry_of (select_images feed_id l).
Proof. unfold listing. by rewrite select_images_app, map_app. Qed.

(** What one request does to the disk: the working directory stays and
    no directory disappears or becomes a file. *)
Lemma handle_disk req env w :
  cwd (disk (snd (handle req env w))) = cwd (disk w) ∧
  dirs_le (nodes (disk w)) (nodes (disk (snd (handle req env w)))).
Proof.
  destruct req as [body|feed_id|feed_id file|feed_id];
    unfold handle, mbind, M_bind, bind.
  - rewrite post_feeds_eq. destruct (FeedCreate.validate body) as [feed|];
      [|split; [done|apply dirs_le_refl]].
    rewrite create_feed_eq.
    destruct (has_nul _ || _); [split; [done|apply dirs_le_refl]|].
    destruct (decide _); (split; [done|apply dirs_le_refl]).
  - rewrite get_feed_eq.
    destruct (select_feed _ _); (split; [done|apply dirs_le_refl]).
  - rewrite upload_image_eq.
    destruct (select_feed _ _); [|split; [done|apply dirs_le_refl]].
    destruct (os_makedirs _ _) as [fs1|] eqn:Hmk;
      [|split; [done|apply dirs_le_refl]].
    pose proof (os_makedirs_inv _ _ _ Hmk) as (Hcwd & Hle & _).
    destruct (open_wb_write _ _ _) as [fs2|] eqn:Hwr; [|by split].
    pose proof (open_wb_write_inv _ _ _ _ Hwr) as (p & Hres & ->).
    assert (dirs_le (nodes (disk w)) (<[p := File (content file)]> (nodes fs1)))
      as Hle2.
    { eapply dirs_le_trans; [exact Hle|].
      by apply dirs_le_insert_file, (resolve_file_not_dir fs1 _ _ Hres). }
    by destruct (decide _).
  - split; [done|apply dirs_le_refl].
Qed.

Lemma later_w1_w4 : later Example.w1 More.w4.
Proof.
  apply (later_handle Example.w1 More.w3).
  apply (later_handle Example.w1 Example.w2).
  apply (later_handle Example.w1 Example.w1).
  apply later_now.
Defined.

Lemma reachable_w4 : reachable More.w4.
Proof.
  apply (reachable_handle More.w3).
  apply (reachable_handle Example.w2), reachable_w2.
Defined.

Lemma reachable_w5 : reachable More.w5.
Proof. apply (reachable_handle More.w4), reachable_w4. Defined.

Lemma later_w2_w5 : later Example.w2 More.w5.
Proof.
  apply (later_handle Example.w2 More.w4).
  apply (later_handle Example.w2 More.w3).
  apply (later_handle Example.w2 Example.w2).
  apply later_now.
Defined.

(* ===================================================================== *)
(** ** Further properties of the tables and the listing *)
(* ===================================================================== *)


(** X10. Feeds are never changed or removed: what [get_feed] answers for
    an identifier once, it answers in every later world. *)
Theorem get_feed_stable feed_id w w' r :
  later w w' →
  get_feed feed_id w = (inr r, w) →
  get_feed feed_id w' = (inr r, w').
Proof.
  intros [new Hnew]%later_feeds. rewrite !get_feed_eq, Hnew.
  destruct (select_feed feed_id (feeds w)) as [f|] eqn:Hf; [|done].
  intros [= <-]. by rewrite (select_feed_app_l _ _ new _ Hf).
Qed.

Lemma get_feed_stable_witness :
  get_feed Example.feed_a More.w4
  = (inr (FeedResponse.mk Example.feed_a "Vacation" None 1700000000000250%Z),
     More.w4).
Proof.
  apply (get_feed_stable Example.feed_a Example.w1 More.w4).
  - exact later_w1_w4.
  - vm_compute. reflexivity.
Defined.

(** X11. Listings only grow: every entry listed for a feed in a world,
    as many times as it is listed there, is listed for it in every later
    world, whatever the order of the entries. *)
Theorem listing_grows feed_id w w' :
  later w w' → listing feed_id w ⊆+ listing feed_id w'.
Proof.
  intros [new Hnew]%later_images. unfold listing at 2.
  rewrite Hnew, listing_app_images. by apply submseteq_inserts_r.
Qed.

Lemma listing_grows_witness :
  listing Example.feed_a Example.w2 ⊆+ listing Example.feed_a More.w5 ∧
  length (listing Example.feed_a Example.w2) = 1 ∧
  length (listing Example.feed_a More.w5) = 2.
Proof.
  split; [|split; vm_compute; reflexivity].
  apply listing_grows, later_w2_w5.
Defined.

(** X12. The primary keys hold in every reachable world: no two Feed
    rows and no two Image rows share an identifier. *)
Theorem reachable_primary_keys w :
  reachable w → NoDup (feed_ids w) ∧ NoDup (image_ids w).
Proof.
  intros H. split;
    [by apply reachable_feed_ids_NoDup|by apply reachable_image_ids_NoDup].
Qed.

Lemma reachable_primary_keys_witness :
  NoDup (feed_ids More.w4) ∧ NoDup (image_ids More.w4).
Proof. apply reachable_primary_keys, reachable_w4. Defined.

(** X13. A feed creation that fails has changed nothing.  It fails with
    422 exactly when the body does not validate; every other failure is a
    500 of the store, which refuses the row: for a NUL in the name or the
    description, or for an identifier from [uuid4] that a Feed already
    has. *)
Theorem post_feeds_failure body env w e w' :
  post_feeds body env w = (inl e, w') →
  w' = w ∧
  (http_status e = 422%Z ∨ http_status e = 500%Z) ∧
  (http_status e = 422%Z ↔ FeedCreate.validate body = None) ∧
  (e = IntegrityError → uuid4 env ∈ feed_ids w) ∧
  (e = DataError →
   ∃ feed, FeedCreate.validate body = Some feed ∧
           has_nul (FeedCreate.name feed)
           || text_has_nul (FeedCreate.description feed) = true).
Proof.
  rewrite post_feeds_eq.
  destruct (FeedCreate.validate body) as [feed|].
  - rewrite create_feed_eq.
    destruct (has_nul _ || _) eqn:Hnul.
    { intros [= <- <-]. simpl. repeat split; auto; try done. by eexists. }
    destruct (decide _) as [Hin|]; [|done].
    intros [= <- <-]. simpl. repeat split; auto; done.
  - intros [= <- <-]. simpl. repeat split; auto; done.
Qed.

Lemma post_feeds_failure_witness :
  snd (post_feeds Example.vacation Example.env_feed Example.w2) = Example.w2 ∧
  (http_status IntegrityError = 422%Z ∨ http_status IntegrityError = 500%Z) ∧
  (http_status IntegrityError = 422%Z
   ↔ FeedCreate.validate Example.vacation = None) ∧
  (IntegrityError = IntegrityError →
   uuid4 Example.env_feed ∈ feed_ids Example.w2) ∧
  (IntegrityError = DataError →
   ∃ feed, FeedCreate.validate Example.vacation = Some feed ∧
           has_nul (FeedCreate.name feed)
           || text_has_nul (FeedCreate.description feed) = true).
Proof.
  apply (post_feeds_failure Example.vacation Example.env_feed Example.w2).
  apply pair_of_fst. vm_compute. reflexivity.
Defined.

(** X14. What the handlers never touch: the two GET handlers change
    nothing, whatever they answer; a feed creation never changes the
    images or the disk; an upload never changes the feeds. *)
Theorem handle_frame req env w :
  match req with
  | GetFeed _ | GetImages _ => snd (handle req env w) = w
  | PostFeeds _ =>
      images (snd (handle req env w)) = images w ∧
      disk (snd (handle req env w)) = disk w
  | PostImages _ _ => feeds (snd (handle req env w)) = feeds w
  end.
Proof.
  destruct req as [body|feed_id|feed_id file|feed_id];
    unfold handle, mbind, M_bind, bind.
  - rewrite post_feeds_eq. destruct (FeedCreate.validate body) as [feed|];
      [|done].
    rewrite create_feed_eq. destruct (has_nul _ || _); [done|].
    by destruct (decide _).
  - rewrite get_feed_eq. by destruct (select_feed _ _).
  - destruct (upload_image_tables feed_id file env w) as [Hf _].
    by destruct (upload_image feed_id file env w) as [[e|r] w'].
  - done.
Qed.

Lemma entry_ids_elem (f : Image.t → bool) l s :
  s ∈ entry_id <$> List.map entry_of (List.filter f l) →
  ∃ img, img ∈ l ∧ s = Uuid.str (Image.id img).
Proof.
  induction l as [|a l IH]; simpl.
  - intros H. by apply elem_of_nil in H.
  - destruct (f a); simpl.
    + rewrite elem_of_cons. intros [->|H].
      * exists a. split; [apply list_elem_of_here|done].
      * destruct (IH H) as (img & Hin & ->). exists img.
        split; [by apply list_elem_of_further|done].
    + intros H. destruct (IH H) as (img & Hin & ->). exists img.
      split; [by apply list_elem_of_further|done].
Qed.

Lemma entry_ids_NoDup (f : Image.t → bool) l :
  NoDup (Image.id <$> l) →
  (∀ img, img ∈ l → Uuid.valid (Image.id img)) →
  NoDup (entry_id <$> List.map entry_of (List.filter f l)).
Proof.
  induction l as [|a l IH]; simpl; intros Hnd Hvalid; [constructor|].
  apply NoDup_cons in Hnd as [Ha Hnd].
  assert (NoDup (entry_id <$> List.map entry_of (List.filter f l))) as Hrest.
  { apply IH; [done|]. intros img Hin. by apply Hvalid, list_elem_of_further. }
  destruct (f a); [|done]. simpl. apply NoDup_cons. split; [|done].
  intros (img & Hin & Heq)%entry_ids_elem. apply Ha.
  apply uuid_str_inj in Heq.
  - rewrite Heq. by apply list_elem_of_fmap_2.
  - apply Hvalid, list_elem_of_here.
  - by apply Hvalid, list_elem_of_further.
Qed.

(** X15. In a reachable world whose Image identifiers are 128-bit
    numbers, no identifier occurs twice in the listing of a feed. *)
Theorem listing_ids_distinct feed_id w :
  reachable w →
  (∀ img, img ∈ images w → Uuid.valid (Image.id img)) →
  NoDup (entry_id <$> listing feed_id w).
Proof.
  intros Hreach Hvalid. unfold listing, select_images.
  apply entry_ids_NoDup; [|done]. by apply reachable_image_ids_NoDup.
Qed.

Lemma listing_ids_distinct_witness :
  NoDup (entry_id <$> listing Example.feed_a More.w5) ∧
  length (listing Example.feed_a More.w5) = 2.
Proof.
  split; [|vm_compute; reflexivity].
  apply listing_ids_distinct; [exact reachable_w5|].
  intros img Himg. vm_compute in Himg.
  apply elem_of_cons in Himg as [->|Himg]; [reflexivity|].
  apply elem_of_cons in Himg as [->|Himg]; [reflexivity|].
  apply list_elem_of_singleton in Himg as ->. reflexivity.
Defined.

Lemma sum_list_zero {A} (l : list A) : sum_list ((λ _, 0) <$> l) = 0.
Proof. induction l as [|a l IH]; csimpl; [done|]. by rewrite IH. Qed.

Lemma sum_list_plus {A} (f g : A → nat) l :
  sum_list ((λ i, f i + g i) <$> l) = sum_list (f <$> l) + sum_list (g <$> l).
Proof. induction l as [|a l IH]; csimpl; [done|]. rewrite IH. lia. Qed.

Lemma sum_list_indicator (x : N) l :
  NoDup l → x ∈ l →
  sum_list ((λ i, if N.eqb x i then 1 else 0) <$> l) = 1.
Proof.
  induction l as [|a l IH]; intros Hnd Hin.
  - by apply elem_of_nil in Hin.
  - apply NoDup_cons in Hnd as [Ha Hnd]. csimpl.
    destruct (N.eqb_spec x a) as [->|Hne].
    + assert (sum_list ((λ i, if N.eqb a i then 1 else 0) <$> l) = 0) as ->;
        [|done].
      clear IH Hin Hnd. induction l as [|b l IH]; csimpl; [done|].
      apply not_elem_of_cons in Ha as [Hab Ha].
      destruct (N.eqb_spec a b); [done|]. by rewrite IH.
    + apply elem_of_cons in Hin as [->|Hin]; [done|]. by rewrite IH.
Qed.

Lemma select_images_count ids imgs :
  NoDup ids →
  (∀ img, img ∈ imgs → Image.feed_id img ∈ ids) →
  sum_list ((λ fid, length (select_images fid imgs)) <$> ids) = length imgs.
Proof.
  intros Hnd. induction imgs as [|a imgs IH]; intros Hown.
  - apply sum_list_zero.
  - transitivity
      (sum_list ((λ fid : UUID, (if N.eqb (Image.feed_id a) fid then 1 else 0)
                         + length (select_images fid imgs)) <$> ids)).
    { f_equal. apply list_fmap_ext. intros _ fid _.
      unfold select_images. simpl.
      by destruct (N.eqb (Image.feed_id a) fid). }
    rewrite (sum_list_plus
               (λ fid : UUID, if N.eqb (Image.feed_id a) fid then 1 else 0)
               (λ fid : UUID, length (select_images fid imgs))).
    rewrite sum_list_indicator by (done || apply Hown, list_elem_of_here).
    rewrite IH; [done|].
    intros img Hin. by apply Hown, list_elem_of_further.
Qed.

(** X16. In a reachable world every Image row is listed under exactly
    one existing feed: the listings of all feeds together have as many
    entries as table [images] has rows. *)
Theorem listings_partition_images w :
  reachable w →
  sum_list ((λ feed_id, length (listing feed_id w)) <$> feed_ids w)
  = length (images w).
Proof.
  intros Hreach.
  rewrite <- (select_images_count (feed_ids w) (images w)).
  - f_equal. apply list_fmap_ext. intros _ fid _. unfold listing.
    apply length_map.
  - by apply reachable_feed_ids_NoDup.
  - by apply reachable_images_owned.
Qed.

Lemma listings_partition_images_witness :
  sum_list ((λ feed_id, length (listing feed_id More.w4)) <$> feed_ids More.w4)
  = length (images More.w4).
Proof. apply listings_partition_images, reachable_w4. Defined.

(** X17. The recorded path of every Image row of a reachable world is
    the one derived from its feed reference and filename, so rows of one
    feed with one filename all point at one path. *)
Theorem image_paths_derived w :
  reachable w →
  (∀ img, img ∈ images w →
     Image.path img = file_path (Image.feed_id img) (Image.filename img)) ∧
  (∀ img1 img2, img1 ∈ images w → img2 ∈ images w →
     Image.feed_id img1 = Image.feed_id img2 →
     Image.filename img1 = Image.filename img2 →
     Image.path img1 = Image.path img2).
Proof.
  intros Hreach.
  assert (∀ img, img ∈ images w →
     Image.path img = file_path (Image.feed_id img) (Image.filename img)) as H.
  { induction Hreach as [fs|w req env _ IH]; intros img Himg.
    - by apply elem_of_nil in Himg.
    - destruct (handle_images req env w)
        as [Hi|(fid & file & reply & _ & _ & Hi & _)]; rewrite Hi in Himg.
      + by apply IH.
      + apply elem_of_app in Himg as [Himg|Himg]; [by apply IH|].
        by apply list_elem_of_singleton in Himg as ->. }
  split; [exact H|].
  intros img1 img2 H1 H2 Hf Hn. by rewrite (H _ H1), (H _ H2), Hf, Hn.
Qed.

Lemma image_paths_derived_witness :
  (∀ img, img ∈ images More.w4 →
     Image.path img = file_path (Image.feed_id img) (Image.filename img)) ∧
  (∀ img1 img2, img1 ∈ images More.w4 → img2 ∈ images More.w4 →
     Image.feed_id img1 = Image.feed_id img2 →
     Image.filename img1 = Image.filename img2 →
     Image.path img1 = Image.path img2).
Proof. apply image_paths_derived, reachable_w4. Defined.

(** X18. Directories stay: in every later world the working directory
    is the same and every directory is still a directory; no request
    removes one or replaces it by a file. *)
Theorem directories_persist w w' :
  later w w' →
  cwd (disk w') = cwd (disk w) ∧
  dirs_le (nodes (disk w)) (nodes (disk w')).
Proof.
  induction 1 as [|w w' req env _ [IHc IHd]]; [split; [done|apply dirs_le_refl]|].
  destruct (handle_disk req env w') as [Hc Hd]. split; [congruence|].
  by eapply dirs_le_trans.
Qed.

Lemma directories_persist_witness :
  cwd (disk More.w4) = cwd (disk Example.w1) ∧
  dirs_le (nodes (disk Example.w1)) (nodes (disk More.w4)).
Proof. apply directories_persist, later_w1_w4. Defined.

(** X19. Keys of the request body other than name and description play
    no part: adding or changing one changes neither the outcome of the
    creation nor the world after it. *)
Theorem post_feeds_ignores_other_keys body k v env w :
  k ≠ "name" → k ≠ "description" →
  post_feeds (<[k := v]> body) env w = post_feeds body env w.
Proof.
  intros Hn Hd. rewrite !post_feeds_eq. unfold FeedCreate.validate.
  by rewrite !lookup_insert_ne.
Qed.

Lemma post_feeds_ignores_other_keys_witness :
  post_feeds (<["owner" := JOther]> Example.vacation) Example.env_feed
             (initial Example.disk0)
  = post_feeds Example.vacation Example.env_feed (initial Example.disk0).
Proof.
  apply post_feeds_ignores_other_keys; vm_compute; discriminate.
Defined.

(** X20. A feed that has just been created in a reachable world has an
    empty listing. *)
Theorem new_feed_lists_nothing body env w r w' :
  reachable w →
  post_feeds body env w = (inr r, w') →
  list_images (FeedResponse.id r) w' = (inr [], w').
Proof.
  intros Hreach. rewrite post_feeds_eq.
  destruct (FeedCreate.validate body) as [feed|]; [|done].
  rewrite create_feed_eq. destruct (has_nul _ || _); [done|].
  destruct (decide _) as [|Hfresh]; [done|].
  intros [= <- <-]. rewrite list_images_eq. cbn [images set_feeds].
  cbn [FeedResponse.id FeedResponse.from_attributes new_feed Feed.id].
  destruct (select_images (uuid4 env) (images w)) as [|img l] eqn:Hsel; [done|].
  exfalso. assert (img ∈ select_images (uuid4 env) (images w)) as Himg
    by (rewrite Hsel; apply list_elem_of_here).
  apply select_images_elem in Himg as [Himg Hid].
  apply Hfresh. rewrite <- Hid. by apply (reachable_images_owned w Hreach).
Qed.

Lemma new_feed_lists_nothing_witness :
  list_images Example.feed_b More.w3 = (inr [], More.w3).
Proof.
  apply (new_feed_lists_nothing More.holidays More.env_feed_b Example.w2
           (FeedResponse.mk Example.feed_b "Vacation" (Some "second album")
                            1700000003000120%Z)).
  - exact reachable_w2.
  - apply post_feeds_of_fst. vm_compute. reflexivity.
Defined.

(* ===================================================================== *)
(** ** The disk stays a tree *)
(* ===================================================================== *)

Lemma parent_of_dir m cur :
  (∀ p n, is_Some (m !! (p ++ [n])) → fs_node m p = Some Dir) →
  fs_node m cur = Some Dir → fs_node m (parent cur) = Some Dir.
Proof.
  intros Hwf Hcur. destruct cur as [|c cur _] using rev_ind; [done|].
  rewrite parent_snoc. apply (Hwf cur c).
  rewrite fs_node_snoc in Hcur. by rewrite Hcur.
Qed.

Lemma walk_dir m :
  (∀ p n, is_Some (m !! (p ++ [n])) → fs_node m p = Some Dir) →
  ∀ cs cur d, fs_node m cur = Some Dir → walk m cur cs = Some d →
              fs_node m d = Some Dir.
Proof.
  intros Hwf. induction cs as [|c cs IH]; intros cur d Hcur; simpl.
  - by intros [= <-].
  - destruct (classify c) as [| |n].
    + by apply IH.
    + by apply IH, parent_of_dir.
    + destruct (fs_node m (cur ++ [n])) as [[|?]|] eqn:Hn; [|done..].
      by apply IH.
Qed.

Lemma insert_dir_tree m cur n :
  (∀ p k, is_Some (m !! (p ++ [k])) → fs_node m p = Some Dir) →
  fs_node m cur = Some Dir →
  ∀ p k, is_Some (<[cur ++ [n] := Dir]> m !! (p ++ [k])) →
         fs_node (<[cur ++ [n] := Dir]> m) p = Some Dir.
Proof.
  intros Hwf Hcur p k Hpk. apply dirs_le_insert_dir.
  destruct (decide (cur ++ [n] = p ++ [k])) as [Heq|Hne].
  - by apply app_inj_tail in Heq as [<- _].
  - rewrite lookup_insert_ne in Hpk by done. by apply (Hwf p k).
Qed.

Lemma insert_file_tree m d n data :
  (∀ p k, is_Some (m !! (p ++ [k])) → fs_node m p = Some Dir) →
  fs_node m d = Some Dir →
  fs_node m (d ++ [n]) ≠ Some Dir →
  ∀ p k, is_Some (<[d ++ [n] := File data]> m !! (p ++ [k])) →
         fs_node (<[d ++ [n] := File data]> m) p = Some Dir.
Proof.
  intros Hwf Hd Hfile p k Hpk. apply dirs_le_insert_file; [done|].
  destruct (decide (d ++ [n] = p ++ [k])) as [Heq|Hne].
  - by apply app_inj_tail in Heq as [<- _].
  - rewrite lookup_insert_ne in Hpk by done. by apply (Hwf p k).
Qed.

Lemma mkdir_p_tree : ∀ cs m cur m',
  (∀ p k, is_Some (m !! (p ++ [k])) → fs_node m p = Some Dir) →
  fs_node m cur = Some Dir →
  mkdir_p m cur cs = Some m' →
  ∀ p k, is_Some (m' !! (p ++ [k])) → fs_node m' p = Some Dir.
Proof.
  induction cs as [|c cs IH]; intros m cur m' Hwf Hcur; simpl.
  - by intros [= <-].
  - destruct (classify c) as [| |n].
    + by apply IH.
    + by apply IH, parent_of_dir.
    + destruct (fs_node m (cur ++ [n])) as [[|?]|] eqn:Hn; [by apply IH|done|].
      apply IH.
      * by apply insert_dir_tree.
      * rewrite fs_node_snoc. apply lookup_insert_eq.
Qed.

Lemma os_makedirs_tree fs name fs1 :
  tree_shaped fs → os_makedirs fs name = Some fs1 → tree_shaped fs1.
Proof.
  intros [Hcwd Hwf] Hmk.
  pose proof (os_makedirs_inv _ _ _ Hmk) as (Hc & Hle & _).
  split; [rewrite Hc; by apply Hle|].
  unfold os_makedirs in Hmk. destruct (refused name); [done|].
  destruct (fs_node (nodes fs) (start_dir fs name)) as [[|?]|] eqn:Hs;
    [|done..].
  destruct (mkdir_p _ _ _) as [m|] eqn:Hm; [|done].
  injection Hmk as <-. cbn [nodes]. by eapply mkdir_p_tree.
Qed.

Lemma open_wb_write_tree fs name data fs2 :
  tree_shaped fs → open_wb_write fs name data = Some fs2 → tree_shaped fs2.
Proof.
  intros [Hcwd Hwf] (p & Hres & ->)%open_wb_write_inv. cbn [nodes cwd].
  pose proof (resolve_file_not_dir _ _ _ Hres) as Hnotdir.
  split; [by apply dirs_le_insert_file|].
  unfold resolve_file in Hres. destruct (refused name); [done|].
  destruct (fs_node (nodes fs) (start_dir fs name)) as [[|?]|] eqn:Hs;
    [|done..].
  destruct (walk _ _ _) as [d|] eqn:Hw; [|done]. cbn [mbind option_bind] in Hres.
  destruct (classify _) as [| |n]; [done..|].
  assert (p = d ++ [n]) as -> by (by repeat case_match; simplify_eq).
  apply insert_file_tree; [done| |done].
  by apply (walk_dir _ Hwf _ _ _ Hs Hw).
Qed.

(** X21. Requests keep the disk a tree: if the working directory exists
    and every file and directory lies in a directory before a request,
    so it is after it; [upload_image] never puts a file or a directory
    where there is no directory to hold it. *)
Theorem handle_keeps_tree req env w :
  tree_shaped (disk w) → tree_shaped (disk (snd (handle req env w))).
Proof.
  intros Hwf. destruct req as [body|feed_id|feed_id file|feed_id];
    unfold handle, mbind, M_bind, bind.
  - rewrite post_feeds_eq. destruct (FeedCreate.validate body); [|done].
    rewrite create_feed_eq. destruct (has_nul _ || _); [done|].
    by destruct (decide _).
  - rewrite get_feed_eq. by destruct (select_feed _ _).
  - rewrite upload_image_eq.
    destruct (select_feed _ _); [|done].
    destruct (os_makedirs _ _) as [fs1|] eqn:Hmk; [|done].
    pose proof (os_makedirs_tree _ _ _ Hwf Hmk) as Hwf1.
    destruct (open_wb_write _ _ _) as [fs2|] eqn:Hwr; [|done].
    pose proof (open_wb_write_tree _ _ _ _ Hwf1 Hwr) as Hwf2.
    by destruct (decide _).
  - done.
Qed.

Lemma disk0_tree_shaped : tree_shaped Example.disk0.
Proof.
  split; [reflexivity|]. intros p n [x Hx]. cbn [Example.disk0 nodes] in *.
  apply lookup_insert_Some in Hx as [[Hp _]|[_ Hx]].
  - change ["srv"] with ([] ++ ["srv"]) in Hp.
    by apply app_inj_tail in Hp as [<- _].
  - apply lookup_singleton_Some in Hx as [Hp _].
    change ["srv"; "app"] with (["srv"] ++ ["app"]) in Hp.
    apply app_inj_tail in Hp as [<- _]. reflexivity.
Qed.

Lemma handle_keeps_tree_witness :
  tree_shaped (disk Example.w2) ∧
  nodes (disk Example.w2)
    !! ["srv"; "app"; "uploads"; "123e4567-e89b-42d3-a456-426614174000";
        "cat.png"]
  = Some (File [x89; x50; x4e; x47]) ∧
  nodes (disk Example.w1)
    !! ["srv"; "app"; "uploads"; "123e4567-e89b-42d3-a456-426614174000";
        "cat.png"]
  = None.
Proof.
  split; [|split; vm_compute; reflexivity].
  apply (handle_keeps_tree (PostImages Example.feed_a Example.cat_png)
                           Example.env_image_a Example.w1).
  exact disk0_tree_shaped.
Defined.

(* ===================================================================== *)
(** ** When an upload succeeds *)
(* ===================================================================== *)

Lemma mkdir_p_two_inv m cur a b m' :
  classify a = CName a → classify b = CName b →
  mkdir_p m cur [a; b] = Some m' →
  (∀ d, fs_node m (cur ++ [a]) ≠ Some (File d)) ∧
  (∀ d, fs_node m (cur ++ [a; b]) ≠ Some (File d)).
Proof.
  intros Ha Hb. cbn [mkdir_p]. rewrite Ha, Hb.
  replace ((cur ++ [a]) ++ [b]) with (cur ++ [a; b]) by by rewrite <- app_assoc.
  assert (∀ m0, fs_node m0 (cur ++ [a; b]) = m0 !! (cur ++ [a; b])) as Hnode.
  { intros m0.
    replace (cur ++ [a; b]) with ((cur ++ [a]) ++ [b]) by by rewrite <- app_assoc.
    apply fs_node_snoc. }
  rewrite !Hnode, fs_node_snoc.
  destruct (m !! (cur ++ [a])) as [[|da]|] eqn:Ea; [|done|].
  - destruct (m !! (cur ++ [a; b])) as [[|db]|]; [|done|]; by intros _.
  - rewrite lookup_insert_ne by apply snoc_ne_snoc2.
    destruct (m !! (cur ++ [a; b])) as [[|db]|]; [|done|]; by intros _.
Qed.

Lemma can_store_complete fs feed_id name data fs1 fs2 :
  plain_name name = true →
  os_makedirs fs (upload_dir feed_id) = Some fs1 →
  open_wb_write fs1 (file_path feed_id name) data = Some fs2 →
  can_store fs feed_id name = true.
Proof.
  intros Hplain Hmk Hwr.
  pose proof (open_wb_write_inv _ _ _ _ Hwr) as (p & Hres & _).
  pose proof (resolve_file_not_dir _ _ _ Hres) as Hnotdir.
  apply (resolve_plain_name _ _ _ _ Hplain) in Hres as ->.
  pose proof (os_makedirs_inv _ _ _ Hmk) as (Hcwd & Hle & _).
  unfold os_makedirs in Hmk.
  rewrite refused_upload_dir, start_dir_upload_dir, split_upload_dir in Hmk.
  destruct (fs_node (nodes fs) (cwd fs)) as [[|?]|] eqn:Hc; [|done..].
  destruct (mkdir_p _ _ _) as [m|] eqn:Hm; [|done].
  apply mkdir_p_two_inv in Hm as [Hup Hid];
    [|reflexivity|apply uuid_str_classify].
  unfold can_store. rewrite Hc, <- !app_assoc. cbn [app].
  unfold feed_dir in Hnotdir. rewrite Hcwd, <- app_assoc in Hnotdir.
  cbn [app] in Hnotdir.
  destruct (fs_node (nodes fs) (cwd fs ++ ["uploads"])) as [[|d]|];
    [|by destruct (Hup d)|];
    (destruct (fs_node (nodes fs) (cwd fs ++ ["uploads"; Uuid.str feed_id]))
       as [[|d]|]; [|by destruct (Hid d)|]);
    (destruct (fs_node (nodes fs) (cwd fs ++ ["uploads"; Uuid.str feed_id; name]))
       as [[|?]|] eqn:Hf; [|done..]);
    destruct Hnotdir; by apply Hle.
Qed.

(** A filename that [open] took as one path component is no longer than
    a component may be. *)
Lemma open_wb_write_plain_length fs feed_id name data fs2 :
  plain_name name = true →
  open_wb_write fs (file_path feed_id name) data = Some fs2 →
  String.length name ≤ NAME_MAX.
Proof.
  intros (Hsplit & _ & _)%plain_name_inv (p & Hres & _)%open_wb_write_inv.
  apply resolve_file_accepts, refused_file_path in Hres as (_ & _ & Hall).
  rewrite Hsplit in Hall. by apply Forall_cons in Hall as [H _].
Qed.

(** X22. For a filename that is one ordinary path component the outcome
    of an upload is decided by four things: it succeeds exactly when the
    feed exists, the filename is no longer than the 255 bytes a path
    component may have, the disk can take the file (the working directory
    exists, neither uploads nor uploads/<feed_id> is a regular file, and
    the target is not a directory), and [uuid4] draws an unused
    identifier. *)
Theorem upload_image_plain_succeeds_iff feed_id file env w :
  plain_name (filename file) = true →
  (∃ reply w', upload_image feed_id file env w = (inr reply, w')) ↔
  feed_id ∈ feed_ids w ∧
  String.length (filename file) ≤ NAME_MAX ∧
  can_store (disk w) feed_id (filename file) = true ∧
  uuid4 env ∉ image_ids w.
Proof.
  intros Hplain. split.
  - intros (reply & w' & (fs1 & fs2 & Hin & Hmk & Hwr & Hfresh & _)%upload_image_ok).
    repeat split; [done| | |done].
    + by eapply open_wb_write_plain_length.
    + by eapply can_store_complete.
  - intros (Hin & Hlen & Hstore & Hfresh).
    destruct (can_store_ok _ _ _ (content file) Hplain Hlen Hstore)
      as (fs1 & fs2 & Hmk & Hwr & _).
    eexists _, _. apply upload_image_ok. by exists fs1, fs2.
Qed.

Lemma upload_image_plain_succeeds_iff_witness :
  (∃ reply w', upload_image Example.feed_a Example.cat_png
                 Example.env_image_a Example.w1 = (inr reply, w')) ↔
  Example.feed_a ∈ feed_ids Example.w1 ∧
  String.length "cat.png" ≤ NAME_MAX ∧
  can_store (disk Example.w1) Example.feed_a "cat.png" = true ∧
  uuid4 Example.env_image_a ∉ image_ids Example.w1.
Proof.
  apply (upload_image_plain_succeeds_iff Example.feed_a Example.cat_png
           Example.env_image_a Example.w1).
  vm_compute. reflexivity.
Defined.
